(** * The Operation record store (pkg/scd/store/cockroach/operations.go)

    A shallow embedding of the CockroachDB-backed Operation store of the
    strategic-conflict-detection service: the three relations it reads and
    writes, the SQL statements of the file as functions on those relations,
    and the Go functions [fetchOperations], [fetchOperation],
    [fetchOperationByID], [pushOperation], [populateOperationCells],
    [GetOperation], [DeleteOperation], [UpsertOperation] and
    [searchOperations] as programs of a small state-and-error monad over the
    [Queryable] handle they all share. *)

From stdpp Require Import base option list gmap sets strings pretty.
From Stdlib Require Import ZArith Lia.

Open Scope Z_scope.

(** ** Identifiers and error codes *)

Module dssmodels.
(** [type ID string], [type Owner string]. *)
Abbreviation ID := string (only parsing).
Abbreviation Owner := string (only parsing).
End dssmodels.

Module dsserr.
(** The error codes this file attaches with [NewErrorWithCode]. *)
Inductive Code : Type :=
| NotFound
| AlreadyExists
| VersionMismatch
| PermissionDenied
| BadRequest.
End dsserr.

Module scdmodels.
(** [type OVN string]; the integer [Version] of a row. SQL integer
    arithmetic raises on overflow instead of wrapping, so the counter is an
    unbounded integer here and an overflow is one more failing statement
    (see [q_faults]). *)
Abbreviation OVN := string (only parsing).
Abbreviation Version := Z (only parsing).

(** Modelled from the spec: the declaration of [OperationState] is outside
    this file; the file names [OperationStateAccepted] and
    [OperationStateActivated] only. The spec lists "Accepted, Activated,
    Nonconforming, Contingent, Ended"; [OperationStateUnknown] is the zero
    value a freshly scanned Operation carries. *)
Inductive OperationState : Type :=
| OperationStateUnknown
| OperationStateAccepted
| OperationStateActivated
| OperationStateNonConforming
| OperationStateContingent
| OperationStateEnded.
End scdmodels.

(** Errors as the callers of the store can tell them apart.
    [stacktrace.Propagate] keeps the code and the root cause of the error it
    wraps and only adds a message, so it is the identity here; the one
    message kept is the Operation a [scderr.ErrMissingOVNs] names. *)
Inductive Error : Type :=
| ErrNoRows                              (* sql.ErrNoRows *)
| ErrCode (c : dsserr.Code)              (* stacktrace.NewErrorWithCode *)
| ErrMissingOVNs (id : dssmodels.ID)     (* scderr.ErrMissingOVNs, "Missing OVN for Operation id" *)
| ErrPlain                               (* stacktrace.NewError, no code *)
| ErrBackend.                            (* an error returned by the Queryable *)

Inductive Result (A : Type) : Type :=
| Ok (a : A)
| Err (e : Error).
Arguments Ok {A} a.
Arguments Err {A} e.

(** ** 64-bit cell identifiers *)

(** [s2.CellID] is a [uint64]; the Cell Index stores it as [int64(cell)] and
    reads it back as [s2.CellID(uint64(cell))]. Both conversions keep the 64
    bits and change the interpretation. *)
Abbreviation CellID := Z (only parsing).

Definition int64 (z : Z) : Z := (z + 2 ^ 63) mod 2 ^ 64 - 2 ^ 63.
Definition uint64 (z : Z) : Z := z mod 2 ^ 64.

Definition is_uint64 (z : Z) : Prop := 0 ≤ z < 2 ^ 64.

#[global] Instance is_uint64_dec z : Decision (is_uint64 z).
Proof. unfold is_uint64. apply _. Defined.

Section Store.

Set Default Proof Using "Type".

(** ** What the file takes from its surroundings *)

(** Altitudes are [*float32] in Go and REAL columns in SQL, times are
    [*time.Time] and TIMESTAMPTZ columns. The store only ever compares them
    inside SQL, so they are kept abstract together with the comparison
    [<=] of the backing store ([a >= b] is [b <= a]). *)
Variable Altitude : Type.
Variable altitude_le : Altitude → Altitude → bool.
Variable Time : Type.
Variable time_le : Time → Time → bool.

(** [scdmodels.NewOVNFromTime(updatedAt, id)]: the token generator. *)
Variable NewOVNFromTime : Time → string → scdmodels.OVN.

(** [s2.CellID.Level()]. *)
Variable Level : CellID → Z.

(** [Version.Empty()] and [Version.Matches(other)]. *)
Variable Empty : scdmodels.Version → bool.
Variable Matches : scdmodels.Version → scdmodels.Version → bool.

(** The referential action declared for
    [scd_cells_operations.operation_id]: whether deleting a row of
    [scd_operations] also deletes the Cell Index rows that refer to it.
    The table declarations are not part of this file. *)
Variable cells_on_delete_cascade : bool.

(** ** Data model *)

(** [scdmodels.Operation], with the fields this file reads or writes. *)
Record Operation : Type := mkOperation {
  ID : dssmodels.ID;
  Owner : dssmodels.Owner;
  Version : scdmodels.Version;
  USSBaseURL : string;
  AltitudeLower : option Altitude;
  AltitudeUpper : option Altitude;
  StartTime : option Time;
  EndTime : option Time;
  SubscriptionID : dssmodels.ID;
  OVN : scdmodels.OVN;
  Cells : list CellID;
  State : scdmodels.OperationState;
}.

(** A row of [scd_operations] without its key [id]
    (see [operationFieldsWithIndices]). *)
Record OperationRow : Type := mkOperationRow {
  owner : dssmodels.Owner;
  version : scdmodels.Version;
  url : string;
  altitude_lower : option Altitude;
  altitude_upper : option Altitude;
  starts_at : option Time;
  ends_at : option Time;
  subscription_id : dssmodels.ID;
  updated_at : Time;
}.

(** The columns of [scd_subscriptions] that [DeleteOperation] tests. *)
Record SubscriptionRow : Type := mkSubscriptionRow {
  sub_owner : dssmodels.Owner;
  implicit : bool;
}.

(** The three relations: [scd_operations] keyed by [id],
    [scd_cells_operations] keyed by [(cell_id, operation_id)] with the
    column [cell_level], and [scd_subscriptions] keyed by [id]. *)
Record DB : Type := mkDB {
  scd_operations : gmap string OperationRow;
  scd_cells_operations : gmap (Z * string) Z;
  scd_subscriptions : gmap string SubscriptionRow;
}.

(** [scdmodels.Subscription] and the reader
    [fetchSubscriptionsForNotification] live in the Subscription store.
    Modelled from the spec: "subscriptionsIntersecting(cellIDs) ->
    [Subscription], used as a black box by both upsert and delete paths";
    only its read contract is consumed, so it is one query that returns a
    list computed from the relations and the cell ids. *)
Variable Subscription : Type.
Variable subscriptionsIntersecting : DB → list Z → list Subscription.

(** [Operation.ValidateTimeRange()]: "Validate and perhaps correct
    StartTime and EndTime". It yields an error or the two times the
    Operation carries afterwards. *)
Variable ValidateTimeRange :
  option Time → option Time → Result (option Time * option Time).

(** [dssmodels.Geometry] has the one method [CalculateCovering];
    [dssmodels.GeometryFunc] wraps a function of that type. *)
Record Geometry : Type := GeometryFunc {
  CalculateCovering : Result (list CellID);
}.

Record Volume3D : Type := mkVolume3D {
  AltitudeHi : option Altitude;
  AltitudeLo : option Altitude;
  Footprint : option Geometry;
}.

Record Volume4D : Type := mkVolume4D {
  v4d_StartTime : option Time;
  v4d_EndTime : option Time;
  SpatialVolume : option Volume3D;
}.

(** ** The Queryable handle and the monad of the store *)

(** [dsssql.Queryable]: the relations behind the handle, the value of
    [transaction_timestamp()], and a fault schedule. Every
    [QueryContext]/[ExecContext] call takes the next flag of the schedule;
    [true] makes that call return an error without any effect; an
    exhausted schedule means that no further call fails. *)
Record Queryable : Type := mkQueryable {
  q_db : DB;
  q_now : Time;
  q_faults : list bool;
}.

Definition M (A : Type) : Type := Queryable → Result A * Queryable.

Definition ret {A} (a : A) : M A := λ q, (Ok a, q).
Definition fail {A} (e : Error) : M A := λ q, (Err e, q).
Definition bind {A B} (m : M A) (k : A → M B) : M B :=
  λ q, match m q with
       | (Ok a, q') => k a q'
       | (Err e, q') => (Err e, q')
       end.

Notation "x <- m ;; k" := (bind m (λ x, k))
  (at level 100, m at next level, right associativity).
Notation "m ;;; k" := (bind m (λ _, k))
  (at level 100, right associativity).

(** One SQL statement sent through the handle. *)
Definition statement {A} (run : Time → DB → A * DB) : M A :=
  λ q, match q_faults q with
       | true :: fs => (Err ErrBackend, mkQueryable (q_db q) (q_now q) fs)
       | _ => let r := run (q_now q) (q_db q) in
              (Ok r.1, mkQueryable r.2 (q_now q) (tail (q_faults q)))
       end.

Definition QueryContext {A} (sel : DB → A) : M A :=
  statement (λ _ db, (sel db, db)).
Definition ExecContext (upd : Time → DB → DB) : M unit :=
  statement (λ now db, (tt, upd now db)).

(** ** Reading Operations *)

(** The body of the [rows.Next()] loop of [fetchOperations]: scan the ten
    columns, derive the OVN; [Cells] and [State] keep their zero values. *)
Definition scan (r : string * OperationRow) : Operation :=
  {| ID := r.1;
     Owner := owner r.2;
     Version := version r.2;
     USSBaseURL := url r.2;
     AltitudeLower := altitude_lower r.2;
     AltitudeUpper := altitude_upper r.2;
     StartTime := starts_at r.2;
     EndTime := ends_at r.2;
     SubscriptionID := subscription_id r.2;
     OVN := NewOVNFromTime (updated_at r.2) r.1;
     Cells := [];
     State := scdmodels.OperationStateUnknown |}.

Definition fetchOperations
    (query : Time → DB → list (string * OperationRow) * DB) : M (list Operation) :=
  rows <- statement query ;;
  ret (scan <$> rows).

Definition fetchOperation
    (query : Time → DB → list (string * OperationRow) * DB) : M Operation :=
  operations <- fetchOperations query ;;
  match operations with
  | [] => fail ErrNoRows
  | [o] => ret o
  | _ => fail ErrPlain
  end.

(** [SELECT ... FROM scd_operations WHERE id = $1]. *)
Definition selectOperationByID (id : dssmodels.ID)
    (_ : Time) (db : DB) : list (string * OperationRow) * DB :=
  (match scd_operations db !! id with
   | Some r => [(id, r)]
   | None => []
   end, db).

Definition fetchOperationByID (id : dssmodels.ID) : M Operation :=
  fetchOperation (selectOperationByID id).

(** [GetOperation]. *)
Definition GetOperation (id : dssmodels.ID) : M Operation :=
  λ q, match fetchOperationByID id q with
       | (Ok sub, q') => (Ok sub, q')
       | (Err ErrNoRows, q') => (Err (ErrCode dsserr.NotFound), q')
       | (Err e, q') => (Err e, q')
       end.

(** ** The statements of the write paths *)

(** [upsertOperationsQuery]:
    [UPSERT INTO scd_operations VALUES ($1, $2, COALESCE((SELECT version
    FROM scd_operations WHERE id = $1), 0) + 1, $3, ..., $8,
    transaction_timestamp()) RETURNING ...]. *)
Definition upsertedRow (operation : Operation) (now : Time) (db : DB) : OperationRow :=
  {| owner := Owner operation;
     version := default 0 (version <$> scd_operations db !! ID operation) + 1;
     url := USSBaseURL operation;
     altitude_lower := AltitudeLower operation;
     altitude_upper := AltitudeUpper operation;
     starts_at := StartTime operation;
     ends_at := EndTime operation;
     subscription_id := SubscriptionID operation;
     updated_at := now |}.

Definition upsertOperationsQuery (operation : Operation)
    (now : Time) (db : DB) : list (string * OperationRow) * DB :=
  let r := upsertedRow operation now db in
  ([(ID operation, r)],
   mkDB (<[ID operation := r]> (scd_operations db))
        (scd_cells_operations db) (scd_subscriptions db)).

(** [upsertCellsForOperationQuery]:
    [UPSERT INTO scd_cells_operations (cell_id, cell_level, operation_id)
    VALUES ($1, $2, $3)]. *)
Definition upsertCellsForOperationQuery (cid clevel : Z) (id : dssmodels.ID)
    (_ : Time) (db : DB) : DB :=
  mkDB (scd_operations db)
       (<[(cid, id) := clevel]> (scd_cells_operations db))
       (scd_subscriptions db).

(** [deleteLeftOverCellsForOperationQuery]:
    [DELETE FROM scd_cells_operations WHERE cell_id != ALL($1) AND
    operation_id = $2]. *)
Definition deleteLeftOverCellsForOperationQuery (cids : list Z) (id : dssmodels.ID)
    (_ : Time) (db : DB) : DB :=
  mkDB (scd_operations db)
       (filter (λ kv : Z * string * Z, ¬ ((kv.1.1 ∉ cids) ∧ kv.1.2 = id))
               (scd_cells_operations db))
       (scd_subscriptions db).

(** [deleteQuery]: [DELETE FROM scd_operations WHERE id = $1 AND owner = $2],
    followed by the referential action on the Cell Index when a row went. *)
Definition deleteQuery (id : dssmodels.ID) (o : dssmodels.Owner)
    (_ : Time) (db : DB) : DB :=
  match scd_operations db !! id with
  | Some r =>
      if decide (owner r = o) then
        mkDB (delete id (scd_operations db))
             (if cells_on_delete_cascade
              then filter (λ kv : Z * string * Z, kv.1.2 ≠ id) (scd_cells_operations db)
              else scd_cells_operations db)
             (scd_subscriptions db)
      else db
  | None => db
  end.

(** The subquery [SELECT COALESCE(COUNT(id),0) FROM scd_operations WHERE
    subscription_id = $1]: one row holding the count. *)
Definition countReferencing (sid : dssmodels.ID) (db : DB) : list Z :=
  [Z.of_nat (length (filter (λ kr : string * OperationRow, subscription_id kr.2 = sid)
                            (map_to_list (scd_operations db))))].

(** [deleteImplicitSubscriptionQuery]:
    [DELETE FROM scd_subscriptions WHERE id = $1 AND owner = $2 AND
    implicit = true AND 0 = ALL (...)]. *)
Definition deleteImplicitSubscriptionQuery (sid : dssmodels.ID) (o : dssmodels.Owner)
    (_ : Time) (db : DB) : DB :=
  match scd_subscriptions db !! sid with
  | Some s =>
      if bool_decide (sub_owner s = o) && implicit s
         && forallb (λ n, bool_decide (0 = n)) (countReferencing sid db)
      then mkDB (scd_operations db) (scd_cells_operations db)
                (delete sid (scd_subscriptions db))
      else db
  | None => db
  end.

(** [fetchSubscriptionsForNotification]. *)
Definition fetchSubscriptionsForNotification (cids : list Z) : M (list Subscription) :=
  QueryContext (λ db, subscriptionsIntersecting db cids).

(** [o.Cells = cells]. *)
Definition withCells (o : Operation) (cells : list CellID) : Operation :=
  mkOperation (ID o) (Owner o) (Version o) (USSBaseURL o) (AltitudeLower o)
    (AltitudeUpper o) (StartTime o) (EndTime o) (SubscriptionID o) (OVN o)
    cells (State o).

(** The loop [for i := range cids] of [pushOperation]: one statement per
    cell, stopping at the first that fails. *)
Fixpoint upsertCells (rows : list (Z * Z)) (id : dssmodels.ID) : M unit :=
  match rows with
  | [] => ret tt
  | (cid, clevel) :: rest =>
      ExecContext (upsertCellsForOperationQuery cid clevel id) ;;;
      upsertCells rest id
  end.

(** [pushOperation]. The Operation it returns is the scanned row with
    [Cells] set from the input. *)
Definition pushOperation (operation : Operation) : M (Operation * list Subscription) :=
  let cids := int64 <$> Cells operation in
  let clevels := Level <$> Cells operation in
  let cells := Cells operation in
  stored <- fetchOperation (upsertOperationsQuery operation) ;;
  let operation := withCells stored cells in
  upsertCells (zip cids clevels) (ID operation) ;;;
  ExecContext (deleteLeftOverCellsForOperationQuery cids (ID operation)) ;;;
  subscriptions <- fetchSubscriptionsForNotification cids ;;
  ret (operation, subscriptions).

(** [SELECT cell_id FROM scd_cells_operations WHERE operation_id = $1]. *)
Definition selectCells (id : dssmodels.ID) (db : DB) : list Z :=
  (λ kv : Z * string * Z, kv.1.1) <$>
    filter (λ kv : Z * string * Z, kv.1.2 = id) (map_to_list (scd_cells_operations db)).

(** [populateOperationCells]: the Operation with [Cells] read back. *)
Definition populateOperationCells (o : Operation) : M Operation :=
  cells <- QueryContext (selectCells (ID o)) ;;
  ret (withCells o (uint64 <$> cells)).

(** [DeleteOperation]. *)
Definition DeleteOperation (id : dssmodels.ID) (o : dssmodels.Owner)
    : M (Operation * list Subscription) :=
  λ q,
  match fetchOperationByID id q with
  | (Err ErrNoRows, q1) => (Err (ErrCode dsserr.NotFound), q1)
  | (Err e, q1) => (Err e, q1)
  | (Ok old, q1) =>
      if decide (Owner old ≠ o) then (Err (ErrCode dsserr.PermissionDenied), q1)
      else
        (old <- populateOperationCells old ;;
         let cids := int64 <$> Cells old in
         subscriptions <- fetchSubscriptionsForNotification cids ;;
         ExecContext (deleteQuery id o) ;;;
         ExecContext (deleteImplicitSubscriptionQuery (SubscriptionID old) o) ;;;
         ret (old, subscriptions)) q1
  end.

(** ** Search *)

(** [COALESCE(a <= b, true)]: a comparison with NULL is NULL. *)
Definition coalesce_le {T} (le : T → T → bool) (a b : option T) : bool :=
  match a, b with
  | Some x, Some y => le x y
  | _, _ => true
  end.

(** The subquery [SELECT DISTINCT operation_id FROM scd_cells_operations
    WHERE cell_id = ANY($1)]. *)
Definition unique_operations (cids : list Z) (db : DB) : list string :=
  remove_dups
    ((λ kv : Z * string * Z, kv.1.2) <$>
       filter (λ kv : Z * string * Z, kv.1.1 ∈ cids)
              (map_to_list (scd_cells_operations db))).

(** The [WHERE] clause of [operationsIntersectingVolumeQuery]. *)
Definition bounds_overlap (lo hi : option Altitude) (st et : option Time)
    (r : OperationRow) : bool :=
  coalesce_le altitude_le lo (altitude_upper r)
  && coalesce_le altitude_le (altitude_lower r) hi
  && coalesce_le time_le st (ends_at r)
  && coalesce_le time_le (starts_at r) et.

(** [operationsIntersectingVolumeQuery]: [scd_operations JOIN
    unique_operations ON scd_operations.id = unique_operations.operation_id
    WHERE ...]. *)
Definition operationsIntersectingVolumeQuery
    (cids : list Z) (lo hi : option Altitude) (st et : option Time)
    (_ : Time) (db : DB) : list (string * OperationRow) * DB :=
  (filter (λ kr : string * OperationRow, bounds_overlap lo hi st et kr.2 = true)
     (omap (λ id, (λ r, (id, r)) <$> scd_operations db !! id)
           (unique_operations cids db)),
   db).

(** [searchOperations]. *)
Definition searchOperations (v4d : Volume4D) : M (list Operation) :=
  match SpatialVolume v4d with
  | None => fail (ErrCode dsserr.BadRequest)
  | Some sv =>
      match Footprint sv with
      | None => fail (ErrCode dsserr.BadRequest)
      | Some footprint =>
          match CalculateCovering footprint with
          | Err _ => fail (ErrCode dsserr.BadRequest)
          | Ok [] => fail (ErrCode dsserr.BadRequest)
          | Ok cells =>
              let cids := int64 <$> cells in
              fetchOperations
                (operationsIntersectingVolumeQuery cids
                   (AltitudeLo sv) (AltitudeHi sv)
                   (v4d_StartTime v4d) (v4d_EndTime v4d))
          end
      end
  end.

(** [SearchOperations]. *)
Definition SearchOperations (v4d : Volume4D) : M (list Operation) :=
  searchOperations v4d.

(** ** Upsert *)

(** The loop over the found Operations in [UpsertOperation]: the first
    Operation whose OVN is not in [keyIdx] stops the loop (its ID is
    returned); a matched OVN is deleted from [keyIdx]. *)
Fixpoint checkOVNs (keyIdx : gset string) (operations : list Operation)
    : option dssmodels.ID :=
  match operations with
  | [] => None
  | op :: rest =>
      if decide (OVN op ∈ keyIdx)
      then checkOVNs (keyIdx ∖ {[OVN op]}) rest
      else Some (ID op)
  end.

(** The second [switch] of [UpsertOperation]. *)
Definition checkExisting (old : option Operation) (operation : Operation)
    : option dsserr.Code :=
  match old with
  | None =>
      if negb (Empty (Version operation)) then Some dsserr.NotFound else None
  | Some old =>
      if Empty (Version operation) then Some dsserr.AlreadyExists
      else if negb (Matches (Version operation) (Version old))
           then Some dsserr.VersionMismatch
      else if decide (Owner old ≠ Owner operation)
           then Some dsserr.PermissionDenied
      else None
  end.

(** The Volume4D [UpsertOperation] searches with. *)
Definition volumeOf (operation : Operation) : Volume4D :=
  {| v4d_StartTime := StartTime operation;
     v4d_EndTime := EndTime operation;
     SpatialVolume :=
       Some {| AltitudeHi := AltitudeUpper operation;
               AltitudeLo := AltitudeLower operation;
               Footprint := Some (GeometryFunc (Ok (Cells operation))) |} |}.

(** The [switch operation.State] of [UpsertOperation]. *)
Definition checkConflicts (operation : Operation) (key : list scdmodels.OVN) : M unit :=
  match State operation with
  | scdmodels.OperationStateAccepted | scdmodels.OperationStateActivated =>
      operations <- searchOperations (volumeOf operation) ;;
      match checkOVNs (list_to_set key) operations with
      | Some id => fail (ErrMissingOVNs id)
      | None => ret tt
      end
  | _ => ret tt
  end.

(** The Operation after [ValidateTimeRange] set its two times. *)
Definition withTimeRange (operation : Operation) (st et : option Time) : Operation :=
  mkOperation (ID operation) (Owner operation) (Version operation)
    (USSBaseURL operation) (AltitudeLower operation) (AltitudeUpper operation)
    st et (SubscriptionID operation) (OVN operation) (Cells operation)
    (State operation).

(** [operation.ValidateTimeRange()] on the pointer the caller passed. *)
Definition validated (operation : Operation) : M Operation :=
  match ValidateTimeRange (StartTime operation) (EndTime operation) with
  | Err e => fail e
  | Ok (st, et) => ret (withTimeRange operation st et)
  end.

(** [UpsertOperation] once [old] is known ([None] for [sql.ErrNoRows]). *)
Definition upsertFetched (old : option Operation) (operation : Operation)
    (key : list scdmodels.OVN) : M (Operation * list Subscription) :=
  match checkExisting old operation with
  | Some c => fail (ErrCode c)
  | None =>
      operation <- validated operation ;;
      checkConflicts operation key ;;;
      pushOperation operation
  end.

(** [UpsertOperation]. *)
Definition UpsertOperation (operation : Operation) (key : list scdmodels.OVN)
    : M (Operation * list Subscription) :=
  λ q,
  match fetchOperationByID (ID operation) q with
  | (Err ErrNoRows, q1) => upsertFetched None operation key q1
  | (Err e, q1) => (Err e, q1)
  | (Ok old, q1) => upsertFetched (Some old) operation key q1
  end.

(** ** Reading the handle *)

(** The next call through the handle is scheduled to fail. *)
Definition faulty (q : Queryable) : bool :=
  match q_faults q with
  | true :: _ => true
  | _ => false
  end.

(** The handle after one call that changed nothing behind it. *)
Definition advance (q : Queryable) : Queryable :=
  mkQueryable (q_db q) (q_now q) (tail (q_faults q)).

(** A call that fails and leaves the relations as they were; its error is
    [e] unless the first call through the handle (the fetch by ID) is
    scheduled to fail, in which case it is that failure. *)
Definition rejects {A} (m : M A) (q : Queryable) (e : Error) : Prop :=
  ∃ e' q', m q = (Err e', q') ∧ q_db q' = q_db q ∧ (faulty q = false → e' = e).

(** "[x <= y], or either side is unbounded". *)
Definition le_or_unbounded {T} (le : T → T → bool) (a b : option T) : Prop :=
  ∀ x y, a = Some x → b = Some y → le x y = true.

(** The Operation [id] has a Cell Index row for one of [cells]. *)
Definition indexed_in (cells : list CellID) (id : dssmodels.ID) (db : DB) : Prop :=
  ∃ c, c ∈ cells ∧ is_Some (scd_cells_operations db !! (int64 c, id)).

(** The row [r] of Operation [id] is one a search with covering [cells] and
    the bounds [lo], [hi], [st], [et] has to return. *)
Definition matches_query (cells : list CellID) (lo hi : option Altitude)
    (st et : option Time) (db : DB) (id : dssmodels.ID) (r : OperationRow) : Prop :=
  scd_operations db !! id = Some r
  ∧ indexed_in cells id db
  ∧ le_or_unbounded altitude_le lo (altitude_upper r)
  ∧ le_or_unbounded altitude_le (altitude_lower r) hi
  ∧ le_or_unbounded time_le st (ends_at r)
  ∧ le_or_unbounded time_le (starts_at r) et.

(** The relations after the cell statements [rows] of [pushOperation]. *)
Definition cellsUpserted (rows : list (Z * Z)) (id : dssmodels.ID)
    (now : Time) (db : DB) : DB :=
  foldl (λ d cl, upsertCellsForOperationQuery cl.1 cl.2 id now d) db rows.

(** The [(cell_id, cell_level)] pairs [pushOperation] writes. *)
Definition cellRows (operation : Operation) : list (Z * Z) :=
  zip (int64 <$> Cells operation) (Level <$> Cells operation).

(** The relations after all the writes of [pushOperation]. *)
Definition pushed (operation : Operation) (now : Time) (db : DB) : DB :=
  deleteLeftOverCellsForOperationQuery (int64 <$> Cells operation) (ID operation) now
    (cellsUpserted (cellRows operation) (ID operation) now
       (upsertOperationsQuery operation now db).2).

(** The Operation [pushOperation] returns. *)
Definition pushedOperation (operation : Operation) (now : Time) (db : DB) : Operation :=
  withCells (scan (ID operation, upsertedRow operation now db)) (Cells operation).

(** A sequence of upserts, each through a handle of its own (with its own
    timestamp and fault schedule) over the relations the previous one left;
    [None] unless every one of them succeeds. *)
Fixpoint upsertAll
    (calls : list (Operation * list scdmodels.OVN * Time * list bool)) (db : DB)
    : option (list Operation * DB) :=
  match calls with
  | [] => Some ([], db)
  | (operation, key, now, faults) :: rest =>
      match UpsertOperation operation key (mkQueryable db now faults) with
      | (Ok (o, _), q') =>
          match upsertAll rest (q_db q') with
          | Some (os, db') => Some (o :: os, db')
          | None => None
          end
      | (Err _, _) => None
      end
  end.

(** The Version column of the row of [id], 0 without a row:
    [COALESCE((SELECT version ...), 0)]. *)
Definition storedVersion (id : dssmodels.ID) (db : DB) : Z :=
  default 0 (version <$> scd_operations db !! id).

(** The Operations the conflict search of [UpsertOperation] finds for
    [operation] in the relations behind [q]. *)
Definition found_conflicts (operation : Operation) (q : Queryable) : list Operation :=
  scan <$> (operationsIntersectingVolumeQuery (int64 <$> Cells operation)
              (AltitudeLower operation) (AltitudeUpper operation)
              (StartTime operation) (EndTime operation) (q_now q) (q_db q)).1.

(** The first found Operation whose OVN the caller did not supply. *)
Definition first_unmatched (key : list scdmodels.OVN) (found : list Operation)
    : option Operation :=
  head (filter (λ o, OVN o ∉ key) found).

(** The states for which [UpsertOperation] checks the OVNs. *)
Definition checks_OVNs (s : scdmodels.OperationState) : bool :=
  match s with
  | scdmodels.OperationStateAccepted | scdmodels.OperationStateActivated => true
  | _ => false
  end.

(** The row [fetchOperationByID] finds, as the Operation it scans. *)
Definition stored (id : dssmodels.ID) (db : DB) : option Operation :=
  (λ r, scan (id, r)) <$> scd_operations db !! id.

(** ** Further vocabulary for the properties *)

(** No Cell Index row refers to an Operation that has no row. *)
Definition index_consistent (db : DB) : Prop :=
  ∀ cid id, is_Some (scd_cells_operations db !! (cid, id)) →
            is_Some (scd_operations db !! id).

(** Every Operation row refers to a Subscription that has a row. *)
Definition subscriptions_present (db : DB) : Prop :=
  ∀ id r, scd_operations db !! id = Some r →
          is_Some (scd_subscriptions db !! subscription_id r).

(** [z] is in the range of [int64]. *)
Definition is_int64 (z : Z) : Prop := - 2 ^ 63 ≤ z < 2 ^ 63.

(** "The bound [b'] is the bound [b] or no bound at all." *)
Definition widened {T} (b b' : option T) : Prop := b' = b ∨ b' = None.

(** Every call sent through the handle between [q] and [q'] succeeded: the
    part of the fault schedule used up in between holds no failure. *)
Definition sent_without_failure (q q' : Queryable) : Prop :=
  ∃ n, q_faults q' = drop n (q_faults q)
       ∧ Forall (λ b, b = false) (take n (q_faults q)).

(** [m] returns a result only when every call it sent succeeded: it passes
    on the failure of a call as its own error. *)
Definition returns_without_failure {A} (m : M A) : Prop :=
  ∀ q a q', m q = (Ok a, q') → sent_without_failure q q'.

(** Modelled from the spec: the transaction that owns the [Queryable] is
    opened, committed and rolled back outside this file. "Every write path
    must execute as a single atomic transaction"; the backing store "must
    support executing a sequence of statements atomically (all-or-nothing
    commit)"; "on any failure mid-transaction, all prior statements in that
    transaction must be rolled back"; the handle is "an explicit
    transaction/session object passed by reference to every store operation
    within one atomic unit of work". A call [m] runs on a handle over the
    committed relations [db]; when it returns a result the commit is one
    more call through the handle, and if it goes through the relations
    behind the handle become the committed ones; when the call or the commit
    fails, the transaction is rolled back and the committed relations stay
    [db]. *)
Definition Transact {A} (m : M A) (now : Time) (faults : list bool) (db : DB)
    : Result A * DB :=
  match m (mkQueryable db now faults) with
  | (Ok a, q') => if faulty q' then (Err ErrBackend, db) else (Ok a, q_db q')
  | (Err e, _) => (Err e, db)
  end.

(** Modelled from the spec: the declaration of [scd_cells_operations] is not
    part of this file, and [DeleteOperation] reads the cells of the
    Operation before it deletes the row "since after deletion the footprint
    would be lost"; "after a delete, zero rows remain for that ID". The Cell
    Index rows follow the deletion of the Operation row they refer to. *)
Definition cell_index_follows_delete : Prop := cells_on_delete_cascade = true.

(** * Properties *)

(** [tauto] reads a section variable of function type as an implication and
    then counts it as used; the variables the goal does not mention are
    dropped first. *)
Ltac prop_tauto :=
  try clear ValidateTimeRange; try clear subscriptionsIntersecting;
  try clear Matches; try clear Empty; try clear Level;
  try clear NewOVNFromTime; try clear time_le; try clear altitude_le;
  tauto.

(** ** The monad and single statements *)

Lemma statement_run {A} (run : Time → DB → A * DB) q :
  statement run q =
  if faulty q then (Err ErrBackend, advance q)
  else (Ok (run (q_now q) (q_db q)).1,
        mkQueryable (run (q_now q) (q_db q)).2 (q_now q) (tail (q_faults q))).
Proof.
  unfold statement, faulty, advance.
  destruct (q_faults q) as [|[] fs]; reflexivity.
Qed.

Lemma QueryContext_run {A} (sel : DB → A) q :
  QueryContext sel q =
  if faulty q then (Err ErrBackend, advance q) else (Ok (sel (q_db q)), advance q).
Proof. unfold QueryContext. rewrite statement_run. reflexivity. Qed.

Lemma ExecContext_run (upd : Time → DB → DB) q :
  ExecContext upd q =
  if faulty q then (Err ErrBackend, advance q)
  else (Ok tt, mkQueryable (upd (q_now q) (q_db q)) (q_now q) (tail (q_faults q))).
Proof. unfold ExecContext. rewrite statement_run. reflexivity. Qed.

Lemma bind_Ok {A B} (m : M A) (k : A → M B) q b q' :
  bind m k q = (Ok b, q') →
  ∃ a q1, m q = (Ok a, q1) ∧ k a q1 = (Ok b, q').
Proof.
  unfold bind. destruct (m q) as [[a|e] q1]; [eauto | discriminate].
Qed.

Lemma bind_Err {A B} (m : M A) (k : A → M B) q e q' :
  bind m k q = (Err e, q') →
  m q = (Err e, q') ∨ ∃ a q1, m q = (Ok a, q1) ∧ k a q1 = (Err e, q').
Proof.
  unfold bind. destruct (m q) as [[a|e1] q1]; [eauto | left; congruence].
Qed.

(** ** Fetching by ID *)

Lemma fetchOperationByID_run id q :
  fetchOperationByID id q =
  if faulty q then (Err ErrBackend, advance q)
  else (match stored id (q_db q) with
        | Some o => Ok o
        | None => Err ErrNoRows
        end, advance q).
Proof.
  unfold fetchOperationByID, fetchOperation, fetchOperations, bind.
  rewrite statement_run. unfold selectOperationByID, stored.
  destruct (faulty q); [reflexivity|]. simpl.
  destruct (scd_operations (q_db q) !! id); reflexivity.
Qed.

Lemma UpsertOperation_run operation key q :
  UpsertOperation operation key q =
  if faulty q then (Err ErrBackend, advance q)
  else upsertFetched (stored (ID operation) (q_db q)) operation key (advance q).
Proof.
  unfold UpsertOperation. rewrite fetchOperationByID_run.
  destruct (faulty q); [reflexivity|].
  destruct (stored (ID operation) (q_db q)); reflexivity.
Qed.

Lemma upsertFetched_rejected old operation key c q :
  checkExisting old operation = Some c →
  upsertFetched old operation key q = (Err (ErrCode c), q).
Proof. unfold upsertFetched. intros ->. reflexivity. Qed.

Lemma stored_Some id db r :
  scd_operations db !! id = Some r →
  stored id db = Some (scan (id, r)).
Proof. unfold stored. intros ->. reflexivity. Qed.

Lemma UpsertOperation_rejects operation key q c :
  checkExisting (stored (ID operation) (q_db q)) operation = Some c →
  rejects (UpsertOperation operation key) q (ErrCode c).
Proof.
  intros Hc. unfold rejects. rewrite UpsertOperation_run.
  destruct (faulty q).
  - exists ErrBackend, (advance q). split_and!; [reflexivity..|discriminate].
  - rewrite (upsertFetched_rejected _ _ _ _ _ Hc).
    exists (ErrCode c), (advance q). split_and!; reflexivity.
Qed.

Lemma DeleteOperation_run id o q :
  DeleteOperation id o q =
  if faulty q then (Err ErrBackend, advance q)
  else match stored id (q_db q) with
       | None => (Err (ErrCode dsserr.NotFound), advance q)
       | Some old =>
           if decide (Owner old ≠ o)
           then (Err (ErrCode dsserr.PermissionDenied), advance q)
           else bind (populateOperationCells old) (λ old,
                  bind (fetchSubscriptionsForNotification (int64 <$> Cells old)) (λ subscriptions,
                  bind (ExecContext (deleteQuery id o)) (λ _,
                  bind (ExecContext (deleteImplicitSubscriptionQuery (SubscriptionID old) o)) (λ _,
                  ret (old, subscriptions))))) (advance q)
       end.
Proof.
  unfold DeleteOperation. rewrite fetchOperationByID_run.
  destruct (faulty q); [reflexivity|].
  destruct (stored id (q_db q)); reflexivity.
Qed.

(** ** Version and ownership checks of the write paths *)

(** C5. An upsert that names a non-empty Version for an ID without a row
    fails with NotFound; one that names an empty Version for an ID with a
    row fails with AlreadyExists; one whose non-empty Version does not match
    the Version of the row fails with VersionMismatch. In each case the
    relations behind the handle are what they were before the call (when the
    fetch by ID itself fails, the call fails with that error, again without
    writing). *)
Theorem UpsertOperation_version_check operation key q :
  (scd_operations (q_db q) !! ID operation = None →
   Empty (Version operation) = false →
   rejects (UpsertOperation operation key) q (ErrCode dsserr.NotFound))
  ∧ (∀ r, scd_operations (q_db q) !! ID operation = Some r →
     Empty (Version operation) = true →
     rejects (UpsertOperation operation key) q (ErrCode dsserr.AlreadyExists))
  ∧ (∀ r, scd_operations (q_db q) !! ID operation = Some r →
     Empty (Version operation) = false →
     Matches (Version operation) (version r) = false →
     rejects (UpsertOperation operation key) q (ErrCode dsserr.VersionMismatch)).
Proof.
  split_and!.
  - intros Hnone Hv. apply UpsertOperation_rejects.
    unfold stored. rewrite Hnone. simpl. rewrite Hv. reflexivity.
  - intros r Hr Hv. apply UpsertOperation_rejects.
    rewrite (stored_Some _ _ _ Hr). simpl. rewrite Hv. reflexivity.
  - intros r Hr Hv Hm. apply UpsertOperation_rejects.
    rewrite (stored_Some _ _ _ Hr). simpl. rewrite Hv, Hm. reflexivity.
Qed.

(** C4 (as amended). When the caller is not the Owner of the stored row, an
    upsert always fails without writing, but the error follows the order of
    the checks: AlreadyExists for an empty Version, VersionMismatch for a
    Version that does not match, and PermissionDenied only for a Version
    that matches. A delete, which takes no Version, fails with
    PermissionDenied and leaves the relations unchanged. *)
Theorem owner_mismatch_rejected q :
  (∀ operation key r,
     scd_operations (q_db q) !! ID operation = Some r →
     owner r ≠ Owner operation →
     rejects (UpsertOperation operation key) q
       (ErrCode (if Empty (Version operation) then dsserr.AlreadyExists
                 else if Matches (Version operation) (version r)
                      then dsserr.PermissionDenied
                      else dsserr.VersionMismatch)))
  ∧ (∀ id o r,
       scd_operations (q_db q) !! id = Some r →
       owner r ≠ o →
       rejects (DeleteOperation id o) q (ErrCode dsserr.PermissionDenied)).
Proof.
  split.
  - intros operation key r Hr Ho. apply UpsertOperation_rejects.
    rewrite (stored_Some _ _ _ Hr). simpl.
    destruct (Empty (Version operation)); [reflexivity|].
    destruct (Matches (Version operation) (version r)); simpl; [|reflexivity].
    destruct (decide (owner r ≠ Owner operation)); [reflexivity|contradiction].
  - intros id o r Hr Ho. unfold rejects. rewrite DeleteOperation_run.
    destruct (faulty q).
    + exists ErrBackend, (advance q). split_and!; [reflexivity..|discriminate].
    + rewrite (stored_Some _ _ _ Hr). simpl.
      destruct (decide (owner r ≠ o)); [|contradiction].
      exists (ErrCode dsserr.PermissionDenied), (advance q).
      split_and!; reflexivity.
Qed.

(** ** Search *)

Lemma coalesce_le_spec {T} (le : T → T → bool) a b :
  coalesce_le le a b = true ↔ le_or_unbounded le a b.
Proof.
  unfold coalesce_le, le_or_unbounded.
  destruct a as [x|], b as [y|]; split; intros H;
    try reflexivity; try (intros x' y' Ha Hb; discriminate).
  - intros x' y' [= <-] [= <-]. exact H.
  - apply H; reflexivity.
Qed.

Lemma elem_of_unique_operations cids db id :
  id ∈ unique_operations cids db ↔
  ∃ cid, cid ∈ cids ∧ is_Some (scd_cells_operations db !! (cid, id)).
Proof.
  unfold unique_operations.
  rewrite elem_of_remove_dups, list_elem_of_fmap. split.
  - intros ([[cid id'] lvl] & -> & Hin). simpl.
    apply list_elem_of_filter in Hin as [Hc Hin]. simpl in Hc.
    apply elem_of_map_to_list in Hin. eauto.
  - intros (cid & Hc & lvl & Hl). exists (cid, id, lvl). split; [reflexivity|].
    apply list_elem_of_filter. split; [exact Hc|].
    apply elem_of_map_to_list. exact Hl.
Qed.

Lemma indexed_in_unique_operations cells db id :
  id ∈ unique_operations (int64 <$> cells) db ↔ indexed_in cells id db.
Proof.
  rewrite elem_of_unique_operations. unfold indexed_in. split.
  - intros (cid & Hc & Hs). apply list_elem_of_fmap in Hc as (c & -> & Hc). eauto.
  - intros (c & Hc & Hs). exists (int64 c). split; [|exact Hs].
    apply list_elem_of_fmap. eauto.
Qed.

Lemma joined_fst_sublist (m : gmap string OperationRow) (ids : list string) :
  (omap (λ id, (λ r, (id, r)) <$> m !! id) ids).*1 `sublist_of` ids.
Proof.
  induction ids as [|id ids IH]; simpl; [constructor|].
  destruct (m !! id); simpl; constructor; exact IH.
Qed.

Lemma query_ids_NoDup cids lo hi st et now db :
  NoDup ((operationsIntersectingVolumeQuery cids lo hi st et now db).1.*1).
Proof.
  unfold operationsIntersectingVolumeQuery. simpl.
  apply (sublist_NoDup _ (unique_operations cids db));
    [unfold unique_operations; apply NoDup_remove_dups|].
  etrans; [|apply joined_fst_sublist]. apply fmap_sublist.
  apply sublist_filter.
Qed.

Lemma elem_of_query cells lo hi st et now db id r :
  (id, r) ∈ (operationsIntersectingVolumeQuery (int64 <$> cells) lo hi st et now db).1
  ↔ matches_query cells lo hi st et db id r.
Proof.
  unfold operationsIntersectingVolumeQuery, matches_query, bounds_overlap. simpl.
  rewrite list_elem_of_filter, list_elem_of_omap. simpl.
  rewrite !andb_true_iff, !coalesce_le_spec.
  setoid_rewrite <- indexed_in_unique_operations. split.
  - intros ((((H1 & H2) & H3) & H4) & id' & Hin & Hl).
    destruct (scd_operations db !! id') as [r'|] eqn:Hr; [|discriminate].
    simpl in Hl. injection Hl as <- <-. split_and!; assumption.
  - intros (Hr & Hin & H1 & H2 & H3 & H4). split; [split_and!; assumption|].
    exists id. split; [exact Hin|]. rewrite Hr. reflexivity.
Qed.

Lemma scan_ID kr : ID (scan kr) = kr.1.
Proof. reflexivity. Qed.

Lemma searchOperations_run v4d sv fp c cells q :
  SpatialVolume v4d = Some sv →
  Footprint sv = Some fp →
  CalculateCovering fp = Ok (c :: cells) →
  searchOperations v4d q =
  if faulty q then (Err ErrBackend, advance q)
  else (Ok (scan <$> (operationsIntersectingVolumeQuery (int64 <$> c :: cells)
                        (AltitudeLo sv) (AltitudeHi sv)
                        (v4d_StartTime v4d) (v4d_EndTime v4d) (q_now q) (q_db q)).1),
        advance q).
Proof.
  intros Hsv Hfp Hc. unfold searchOperations. rewrite Hsv, Hfp, Hc.
  unfold fetchOperations, bind. rewrite statement_run.
  destruct (faulty q); reflexivity.
Qed.

(** C8. A search without a spatial volume, without a footprint, or whose
    covering is empty (or cannot be computed) fails with BadRequest. With a
    non-empty covering, and unless the query itself fails at the backing
    store, it returns without changing anything a list in which no
    Operation ID occurs twice and whose members are exactly the stored
    Operations that have a Cell Index row for a cell of the covering and
    whose bounds satisfy: altitude upper >= query lower, altitude lower <=
    query upper, end >= query start, start <= query end, each comparison
    holding by default when either side is unbounded. *)
Theorem searchOperations_correct v4d q :
  (SpatialVolume v4d = None →
   searchOperations v4d q = (Err (ErrCode dsserr.BadRequest), q))
  ∧ (∀ sv, SpatialVolume v4d = Some sv → Footprint sv = None →
     searchOperations v4d q = (Err (ErrCode dsserr.BadRequest), q))
  ∧ (∀ sv fp, SpatialVolume v4d = Some sv → Footprint sv = Some fp →
     (CalculateCovering fp = Ok [] ∨ ∃ e, CalculateCovering fp = Err e) →
     searchOperations v4d q = (Err (ErrCode dsserr.BadRequest), q))
  ∧ (∀ sv fp cells, SpatialVolume v4d = Some sv → Footprint sv = Some fp →
     CalculateCovering fp = Ok cells → cells ≠ [] → faulty q = false →
     ∃ result,
       searchOperations v4d q = (Ok result, advance q)
       ∧ NoDup (ID <$> result)
       ∧ ∀ o, o ∈ result ↔
           ∃ id r, o = scan (id, r)
             ∧ scd_operations (q_db q) !! id = Some r
             ∧ (∃ c, c ∈ cells ∧ is_Some (scd_cells_operations (q_db q) !! (int64 c, id)))
             ∧ le_or_unbounded altitude_le (AltitudeLo sv) (altitude_upper r)
             ∧ le_or_unbounded altitude_le (altitude_lower r) (AltitudeHi sv)
             ∧ le_or_unbounded time_le (v4d_StartTime v4d) (ends_at r)
             ∧ le_or_unbounded time_le (starts_at r) (v4d_EndTime v4d)).
Proof.
  split_and!.
  - intros H. unfold searchOperations. rewrite H. reflexivity.
  - intros sv H1 H2. unfold searchOperations. rewrite H1, H2. reflexivity.
  - intros sv fp H1 H2 [H3|[e H3]]; unfold searchOperations;
      rewrite H1, H2, H3; reflexivity.
  - intros sv fp cells H1 H2 H3 Hne Hf.
    destruct cells as [|c cells]; [contradiction|].
    rewrite (searchOperations_run _ _ _ _ _ _ H1 H2 H3), Hf.
    eexists. split; [reflexivity|]. split.
    + rewrite <- list_fmap_compose.
      rewrite (list_fmap_ext (ID ∘ scan) fst _ (λ _ _ _, eq_refl)).
      apply query_ids_NoDup.
    + intros o. rewrite list_elem_of_fmap. split.
      * intros ([id r] & -> & Hin). apply elem_of_query in Hin.
        exists id, r. split; [reflexivity|]. exact Hin.
      * intros (id & r & -> & Hm). exists (id, r). split; [reflexivity|].
        apply elem_of_query. exact Hm.
Qed.

(** ** The OVN check *)

Lemma checkOVNs_agree (K K' : gset string) operations :
  (∀ o, o ∈ operations → OVN o ∈ K ↔ OVN o ∈ K') →
  checkOVNs K operations = checkOVNs K' operations.
Proof.
  revert K K'. induction operations as [|op rest IH]; intros K K' Hagree;
    [reflexivity|]. simpl.
  assert (OVN op ∈ K ↔ OVN op ∈ K') as Hop by (apply Hagree; left).
  destruct (decide (OVN op ∈ K)) as [Hin|Hin],
           (decide (OVN op ∈ K')) as [Hin'|Hin']; try prop_tauto.
  apply IH. intros o Ho.
  rewrite !elem_of_difference. specialize (Hagree o (list_elem_of_further _ _ _ Ho)).
  prop_tauto.
Qed.

Lemma checkOVNs_first_unmatched key found :
  NoDup (OVN <$> found) →
  checkOVNs (list_to_set key) found = ID <$> first_unmatched key found.
Proof.
  unfold first_unmatched.
  induction found as [|op rest IH]; intros Hnd; [reflexivity|]. simpl.
  rewrite fmap_cons in Hnd. apply NoDup_cons in Hnd as [Hnotin Hnd].
  rewrite filter_cons.
  destruct (decide (OVN op ∈ (list_to_set key : gset string))) as [Hin|Hin].
  - rewrite elem_of_list_to_set in Hin.
    destruct (decide (OVN op ∉ key)) as [Hn|_]; [contradiction|].
    rewrite <- (IH Hnd). apply checkOVNs_agree. intros o Ho.
    rewrite elem_of_difference, elem_of_singleton.
    assert (OVN o ≠ OVN op); [|prop_tauto].
    intros Heq. apply Hnotin. rewrite <- Heq. apply list_elem_of_fmap_2. exact Ho.
  - rewrite elem_of_list_to_set in Hin.
    destruct (decide (OVN op ∉ key)) as [_|Hn]; [reflexivity|contradiction].
Qed.

Lemma checkOVNs_unmatched (K : gset string) operations o :
  o ∈ operations → OVN o ∉ K → is_Some (checkOVNs K operations).
Proof.
  revert K. induction operations as [|op rest IH]; intros K Ho Hn.
  - inversion Ho.
  - simpl. destruct (decide (OVN op ∈ K)) as [Hin|Hin]; [|eauto].
    apply elem_of_cons in Ho as [->|Ho]; [contradiction|].
    apply IH; [exact Ho|]. rewrite elem_of_difference. prop_tauto.
Qed.

Lemma checkConflicts_unchecked operation key q :
  checks_OVNs (State operation) = false →
  checkConflicts operation key q = (Ok tt, q).
Proof.
  unfold checkConflicts. destruct (State operation); (discriminate || reflexivity).
Qed.

Lemma checkConflicts_run operation key q :
  checks_OVNs (State operation) = true →
  Cells operation ≠ [] →
  checkConflicts operation key q =
  if faulty q then (Err ErrBackend, advance q)
  else match checkOVNs (list_to_set key) (found_conflicts operation q) with
       | Some id => (Err (ErrMissingOVNs id), advance q)
       | None => (Ok tt, advance q)
       end.
Proof.
  intros Hs Hc. destruct (Cells operation) as [|c cells] eqn:Hcells; [contradiction|].
  assert (bind (searchOperations (volumeOf operation))
            (λ operations,
               match checkOVNs (list_to_set key) operations with
               | Some id => fail (ErrMissingOVNs id)
               | None => ret tt
               end) q =
          if faulty q then (Err ErrBackend, advance q)
          else match checkOVNs (list_to_set key) (found_conflicts operation q) with
               | Some id => (Err (ErrMissingOVNs id), advance q)
               | None => (Ok tt, advance q)
               end) as Hrun.
  { unfold bind.
    rewrite (searchOperations_run (volumeOf operation) _ _ c cells q eq_refl eq_refl)
      by (simpl; rewrite Hcells; reflexivity).
    unfold found_conflicts. rewrite Hcells. simpl.
    destruct (faulty q); [reflexivity|].
    destruct (checkOVNs _ _); reflexivity. }
  unfold checkConflicts.
  destruct (State operation); try discriminate; exact Hrun.
Qed.

Lemma upsertFetched_run old operation key st et q :
  checkExisting old operation = None →
  ValidateTimeRange (StartTime operation) (EndTime operation) = Ok (st, et) →
  upsertFetched old operation key q =
  bind (checkConflicts (withTimeRange operation st et) key)
       (λ _, pushOperation (withTimeRange operation st et)) q.
Proof.
  intros Hc Hv. unfold upsertFetched. rewrite Hc.
  unfold bind at 1. unfold validated. rewrite Hv. reflexivity.
Qed.

Lemma elem_of_found_conflicts operation q o :
  o ∈ found_conflicts operation q ↔
  ∃ id r, o = scan (id, r)
    ∧ matches_query (Cells operation) (AltitudeLower operation)
        (AltitudeUpper operation) (StartTime operation) (EndTime operation)
        (q_db q) id r.
Proof.
  unfold found_conflicts. rewrite list_elem_of_fmap. split.
  - intros ([id r] & -> & Hin). apply elem_of_query in Hin. eauto.
  - intros (id & r & -> & Hm). exists (id, r). split; [reflexivity|].
    apply elem_of_query. exact Hm.
Qed.

Lemma NoDup_fst_functional {K V} (l : list (K * V)) k v1 v2 :
  NoDup l.*1 → (k, v1) ∈ l → (k, v2) ∈ l → v1 = v2.
Proof.
  induction l as [|[k' v'] l IH]; simpl; intros Hnd H1 H2; [inversion H1|].
  apply NoDup_cons in Hnd as [Hk Hnd].
  apply elem_of_cons in H1 as [H1|H1], H2 as [H2|H2].
  - congruence.
  - injection H1 as -> ->. exfalso. apply Hk.
    apply (list_elem_of_fmap_2 fst) in H2. exact H2.
  - injection H2 as -> ->. exfalso. apply Hk.
    apply (list_elem_of_fmap_2 fst) in H1. exact H1.
  - eauto.
Qed.

(** Tokens that tell Operations apart give pairwise different OVNs among
    the found Operations. *)
Lemma found_conflicts_OVN_NoDup operation q :
  (∀ t1 t2 id1 id2, NewOVNFromTime t1 id1 = NewOVNFromTime t2 id2 → id1 = id2) →
  NoDup (OVN <$> found_conflicts operation q).
Proof.
  intros Hinj. unfold found_conflicts.
  set (rows := (operationsIntersectingVolumeQuery _ _ _ _ _ _ _).1).
  assert (NoDup rows.*1) as Hnd by apply query_ids_NoDup.
  rewrite <- list_fmap_compose.
  apply NoDup_fmap_2_strong; [|eapply NoDup_fmap_1; exact Hnd].
  intros [id1 r1] [id2 r2] H1 H2 Heq. simpl in Heq.
  apply Hinj in Heq as ->. f_equal.
  exact (NoDup_fst_functional _ _ _ _ Hnd H1 H2).
Qed.

(** ** The conflict-visibility rule *)

(** C1. Take an upsert that passed the version and ownership checks and the
    time-range validation. When its target State is Accepted or Activated
    (and its cell set is not empty, and the search itself does not fail at
    the backing store), the Operations it finds are exactly the stored ones
    with a Cell Index row for one of its cells and with bounds overlapping
    its own. Provided the found Operations carry pairwise different OVNs,
    the call fails with MissingOVNs naming the first found Operation whose
    OVN is not among the supplied ones, writing nothing, and otherwise goes
    on to the write. Supplied OVNs that belong to no found Operation do not
    change the outcome. For any other State the call goes straight to the
    write: nothing is searched and the supplied OVNs are not looked at. *)
Theorem UpsertOperation_conflict_check operation key q st et :
  faulty q = false →
  checkExisting (stored (ID operation) (q_db q)) operation = None →
  ValidateTimeRange (StartTime operation) (EndTime operation) = Ok (st, et) →
  let operation' := withTimeRange operation st et in
  let found := found_conflicts operation' (advance q) in
  (checks_OVNs (State operation) = true →
   Cells operation ≠ [] →
   faulty (advance q) = false →
   (∀ o, o ∈ found ↔
      ∃ id r, o = scan (id, r)
        ∧ matches_query (Cells operation) (AltitudeLower operation)
            (AltitudeUpper operation) st et (q_db q) id r)
   ∧ (NoDup (OVN <$> found) →
      UpsertOperation operation key q =
      match first_unmatched key found with
      | Some o => (Err (ErrMissingOVNs (ID o)), advance (advance q))
      | None => pushOperation operation' (advance (advance q))
      end)
   ∧ (∀ extra, (∀ o, o ∈ found → OVN o ∉ extra) →
      UpsertOperation operation (key ++ extra) q = UpsertOperation operation key q))
  ∧ (checks_OVNs (State operation) = false →
     ∀ key', UpsertOperation operation key' q = pushOperation operation' (advance q)).
Proof.
  intros Hf Hc Hv operation' found.
  assert (∀ k, UpsertOperation operation k q =
               bind (checkConflicts operation' k) (λ _, pushOperation operation')
                    (advance q)) as Hrun.
  { intros k. rewrite UpsertOperation_run, Hf.
    apply upsertFetched_run; assumption. }
  split.
  - intros Hs Hcells Hf'.
    assert (∀ k, UpsertOperation operation k q =
                 match checkOVNs (list_to_set k) found with
                 | Some id => (Err (ErrMissingOVNs id), advance (advance q))
                 | None => pushOperation operation' (advance (advance q))
                 end) as Hrun'.
    { intros k. rewrite Hrun. unfold bind.
      rewrite checkConflicts_run, Hf' by assumption. fold found.
      destruct (checkOVNs _ _); reflexivity. }
    split_and!.
    + intros o. apply elem_of_found_conflicts.
    + intros Hnd. rewrite Hrun', checkOVNs_first_unmatched by exact Hnd.
      destruct (first_unmatched key found); reflexivity.
    + intros extra Hextra. rewrite !Hrun'.
      rewrite (checkOVNs_agree (list_to_set (key ++ extra)) (list_to_set key) found);
        [reflexivity|].
      intros o Ho. rewrite !elem_of_list_to_set, elem_of_app.
      specialize (Hextra o Ho). prop_tauto.
  - intros Hs key'. rewrite Hrun. unfold bind.
    rewrite checkConflicts_unchecked by exact Hs. reflexivity.
Qed.

(** C10. The conflict search does not leave out the Operation being
    written. For an update with target State Accepted or Activated that
    passed the version and ownership checks and the time-range validation,
    and whose new volume still meets its own Cell Index rows and stored
    bounds, the stored row of that same Operation is among the found
    conflicts; unless the supplied OVNs contain the OVN of that stored row,
    the upsert fails with MissingOVNs and writes nothing. *)
Theorem UpsertOperation_own_OVN operation key q r st et :
  faulty q = false →
  faulty (advance q) = false →
  checks_OVNs (State operation) = true →
  scd_operations (q_db q) !! ID operation = Some r →
  checkExisting (Some (scan (ID operation, r))) operation = None →
  ValidateTimeRange (StartTime operation) (EndTime operation) = Ok (st, et) →
  indexed_in (Cells operation) (ID operation) (q_db q) →
  le_or_unbounded altitude_le (AltitudeLower operation) (altitude_upper r) →
  le_or_unbounded altitude_le (altitude_lower r) (AltitudeUpper operation) →
  le_or_unbounded time_le st (ends_at r) →
  le_or_unbounded time_le (starts_at r) et →
  scan (ID operation, r) ∈ found_conflicts (withTimeRange operation st et) (advance q)
  ∧ (OVN (scan (ID operation, r)) ∉ key →
     ∃ id, UpsertOperation operation key q =
           (Err (ErrMissingOVNs id), advance (advance q))
           ∧ q_db (advance (advance q)) = q_db q).
Proof.
  intros Hf Hf' Hs Hr Hc Hv Hidx H1 H2 H3 H4.
  assert (scan (ID operation, r)
            ∈ found_conflicts (withTimeRange operation st et) (advance q)) as Hin.
  { apply elem_of_found_conflicts. exists (ID operation), r.
    split; [reflexivity|]. unfold matches_query. simpl. prop_tauto. }
  split; [exact Hin|]. intros Hkey.
  assert (Cells operation ≠ []) as Hcells.
  { destruct Hidx as (c & Hc' & _). intros Hnil. rewrite Hnil in Hc'. inversion Hc'. }
  rewrite UpsertOperation_run, Hf, (stored_Some _ _ _ Hr).
  rewrite (upsertFetched_run _ _ _ st et) by assumption.
  unfold bind. rewrite checkConflicts_run, Hf' by assumption.
  destruct (checkOVNs_unmatched (list_to_set key) _ _ Hin) as [id Hid].
  { rewrite elem_of_list_to_set. exact Hkey. }
  rewrite Hid. exists id. split; reflexivity.
Qed.

(** ** The statement sequence of pushOperation *)

Lemma upsertCells_inv rows id q res q' :
  upsertCells rows id q = (res, q') →
  q_now q' = q_now q
  ∧ match res with
    | Ok _ => q_db q' = cellsUpserted rows id (q_now q) (q_db q)
    | Err e =>
        e = ErrBackend
        ∧ ∃ k, (k < length rows)%nat
             ∧ q_db q' = cellsUpserted (take k rows) id (q_now q) (q_db q)
    end.
Proof.
  revert q. induction rows as [|[cid clevel] rows IH]; intros q Hrun.
  - injection Hrun as <- <-. split; reflexivity.
  - simpl in Hrun. unfold bind in Hrun. rewrite ExecContext_run in Hrun.
    destruct (faulty q).
    + injection Hrun as <- <-. split; [reflexivity|]. split; [reflexivity|].
      exists 0%nat. split; [simpl; lia|reflexivity].
    + apply IH in Hrun as [Hnow Hres]. simpl in Hnow, Hres.
      split; [exact Hnow|]. destruct res as [u|e]; [exact Hres|].
      destruct Hres as (-> & k & Hk & Hdb). split; [reflexivity|].
      exists (S k). split; [simpl; lia|exact Hdb].
Qed.

Lemma fetchOperation_upsert_run operation q :
  fetchOperation (upsertOperationsQuery operation) q =
  if faulty q then (Err ErrBackend, advance q)
  else (Ok (scan (ID operation, upsertedRow operation (q_now q) (q_db q))),
        mkQueryable (upsertOperationsQuery operation (q_now q) (q_db q)).2
                    (q_now q) (tail (q_faults q))).
Proof.
  unfold fetchOperation, fetchOperations, bind. rewrite statement_run.
  destruct (faulty q); reflexivity.
Qed.

Lemma pushOperation_inv operation q res q' :
  pushOperation operation q = (res, q') →
  q_now q' = q_now q
  ∧ match res with
    | Ok (o, subs) =>
        q_db q' = pushed operation (q_now q) (q_db q)
        ∧ o = pushedOperation operation (q_now q) (q_db q)
        ∧ subs = subscriptionsIntersecting (q_db q') (int64 <$> Cells operation)
    | Err e =>
        e = ErrBackend
        ∧ (q_db q' = q_db q
           ∨ (∃ k, (k ≤ length (cellRows operation))%nat
                ∧ q_db q' = cellsUpserted (take k (cellRows operation)) (ID operation)
                              (q_now q) (upsertOperationsQuery operation (q_now q) (q_db q)).2)
           ∨ q_db q' = pushed operation (q_now q) (q_db q))
    end.
Proof.
  unfold pushOperation, bind. rewrite fetchOperation_upsert_run.
  destruct (faulty q).
  { intros [= <- <-]. split; [reflexivity|]. split; [reflexivity|]. left. reflexivity. }
  set (q1 := mkQueryable _ _ _). simpl.
  destruct (upsertCells _ _ q1) as [[u|e] q2] eqn:Hcells;
    apply upsertCells_inv in Hcells as [Hnow2 Hres2]; simpl in Hnow2, Hres2.
  2:{ intros [= <- <-]. split; [exact Hnow2|].
      destruct Hres2 as (-> & k & Hk & Hdb). split; [reflexivity|].
      right; left. exists k. split; [fold (cellRows operation) in Hk; lia|exact Hdb]. }
  rewrite ExecContext_run. destruct (faulty q2).
  { intros [= <- <-]. split; [exact Hnow2|]. split; [reflexivity|].
    right; left. exists (length (cellRows operation)).
    split; [lia|]. rewrite firstn_all. exact Hres2. }
  unfold fetchSubscriptionsForNotification. rewrite QueryContext_run.
  set (q3 := mkQueryable _ _ _).
  assert (q_db q3 = pushed operation (q_now q) (q_db q)) as Hdb3.
  { unfold q3, pushed. simpl. rewrite Hres2, Hnow2. reflexivity. }
  destruct (faulty q3).
  { intros [= <- <-]. split; [exact Hnow2|]. split; [reflexivity|].
    right; right. exact Hdb3. }
  intros [= <- <-]. split; [exact Hnow2|]. split_and!; [exact Hdb3|reflexivity..].
Qed.

Lemma cellsUpserted_cons r rows id now db :
  cellsUpserted (r :: rows) id now db =
  cellsUpserted rows id now (upsertCellsForOperationQuery r.1 r.2 id now db).
Proof. reflexivity. Qed.

Lemma cellsUpserted_frame rows id now db :
  scd_operations (cellsUpserted rows id now db) = scd_operations db
  ∧ scd_subscriptions (cellsUpserted rows id now db) = scd_subscriptions db.
Proof.
  revert db. induction rows as [|r rows IH]; intros db; [split; reflexivity|].
  rewrite cellsUpserted_cons. destruct (IH (upsertCellsForOperationQuery r.1 r.2 id now db))
    as [-> ->]. split; reflexivity.
Qed.

Lemma cellsUpserted_other rows id now db cid id' :
  id' ≠ id →
  scd_cells_operations (cellsUpserted rows id now db) !! (cid, id')
  = scd_cells_operations db !! (cid, id').
Proof.
  intros Hne. revert db. induction rows as [|r rows IH]; intros db; [reflexivity|].
  rewrite cellsUpserted_cons, IH. simpl.
  apply lookup_insert_ne. congruence.
Qed.

Lemma cellsUpserted_lookup rows id now db cid lvl :
  scd_cells_operations (cellsUpserted rows id now db) !! (cid, id) = Some lvl →
  (cid, lvl) ∈ rows ∨ scd_cells_operations db !! (cid, id) = Some lvl.
Proof.
  revert db. induction rows as [|[c l] rows IH]; intros db Hl; [right; exact Hl|].
  rewrite cellsUpserted_cons in Hl. apply IH in Hl as [Hin|Hl].
  - left. right. exact Hin.
  - simpl in Hl. rewrite lookup_insert in Hl. case_decide as Heq.
    + injection Heq as ->. injection Hl as ->. left. left.
    + right. exact Hl.
Qed.

Lemma cellsUpserted_untouched rows id now db cid :
  cid ∉ rows.*1 →
  scd_cells_operations (cellsUpserted rows id now db) !! (cid, id)
  = scd_cells_operations db !! (cid, id).
Proof.
  revert db. induction rows as [|[c l] rows IH]; intros db Hn; [reflexivity|].
  simpl in Hn. apply not_elem_of_cons in Hn as [Hc Hn].
  rewrite cellsUpserted_cons, IH by exact Hn. simpl.
  apply lookup_insert_ne. congruence.
Qed.

Lemma cellsUpserted_written rows id now db cid :
  cid ∈ rows.*1 →
  ∃ lvl, scd_cells_operations (cellsUpserted rows id now db) !! (cid, id) = Some lvl
         ∧ (cid, lvl) ∈ rows.
Proof.
  revert db. induction rows as [|[c l] rows IH]; intros db Hin; [inversion Hin|].
  rewrite cellsUpserted_cons.
  destruct (decide (cid ∈ rows.*1)) as [Hrest|Hrest].
  - destruct (IH (upsertCellsForOperationQuery c l id now db) Hrest) as (lvl & Hl & Hr).
    exists lvl. split; [exact Hl|right; exact Hr].
  - simpl in Hin. apply elem_of_cons in Hin as [->|Hin]; [|contradiction].
    exists l. split; [|left].
    rewrite cellsUpserted_untouched by exact Hrest. simpl.
    apply lookup_insert_eq.
Qed.

Lemma cellRows_fmap operation :
  cellRows operation = (λ c, (int64 c, Level c)) <$> Cells operation.
Proof.
  unfold cellRows. induction (Cells operation) as [|c cells IH]; [reflexivity|].
  simpl. f_equal. exact IH.
Qed.

Lemma int64_inj x y : is_uint64 x → is_uint64 y → int64 x = int64 y → x = y.
Proof.
  unfold is_uint64, int64. intros Hx Hy Heq.
  assert ((x + 2 ^ 63) mod 2 ^ 64 = (y + 2 ^ 63) mod 2 ^ 64) as Hmod by lia.
  destruct (Z_lt_le_dec x (2 ^ 63)), (Z_lt_le_dec y (2 ^ 63)).
  - rewrite !Z.mod_small in Hmod by lia. lia.
  - rewrite (Z.mod_small (x + 2 ^ 63)) in Hmod by lia.
    replace (y + 2 ^ 63) with ((y - 2 ^ 63) + 1 * 2 ^ 64) in Hmod by lia.
    rewrite Z.mod_add, Z.mod_small in Hmod by lia. lia.
  - rewrite (Z.mod_small (y + 2 ^ 63)) in Hmod by lia.
    replace (x + 2 ^ 63) with ((x - 2 ^ 63) + 1 * 2 ^ 64) in Hmod by lia.
    rewrite Z.mod_add, Z.mod_small in Hmod by lia. lia.
  - replace (x + 2 ^ 63) with ((x - 2 ^ 63) + 1 * 2 ^ 64) in Hmod by lia.
    replace (y + 2 ^ 63) with ((y - 2 ^ 63) + 1 * 2 ^ 64) in Hmod by lia.
    rewrite !Z.mod_add, !Z.mod_small in Hmod by lia. lia.
Qed.

Lemma uint64_int64 x : is_uint64 x → uint64 (int64 x) = x.
Proof.
  unfold is_uint64, uint64, int64. intros Hx.
  rewrite Zminus_mod_idemp_l.
  replace (x + 2 ^ 63 - 2 ^ 63) with x by lia.
  apply Z.mod_small. lia.
Qed.

(** The relations [pushOperation] leaves when it succeeds. *)
Lemma pushed_operations operation now db :
  scd_operations (pushed operation now db)
  = <[ID operation := upsertedRow operation now db]> (scd_operations db).
Proof.
  unfold pushed, deleteLeftOverCellsForOperationQuery. cbn [scd_operations].
  destruct (cellsUpserted_frame (cellRows operation) (ID operation) now
              (upsertOperationsQuery operation now db).2) as [-> _].
  reflexivity.
Qed.

Lemma pushed_subscriptions operation now db :
  scd_subscriptions (pushed operation now db) = scd_subscriptions db.
Proof.
  unfold pushed, deleteLeftOverCellsForOperationQuery. cbn [scd_subscriptions].
  destruct (cellsUpserted_frame (cellRows operation) (ID operation) now
              (upsertOperationsQuery operation now db).2) as [_ ->].
  reflexivity.
Qed.

Lemma pushed_cells_other operation now db cid id :
  id ≠ ID operation →
  scd_cells_operations (pushed operation now db) !! (cid, id)
  = scd_cells_operations db !! (cid, id).
Proof.
  intros Hne. unfold pushed, deleteLeftOverCellsForOperationQuery.
  cbn [scd_cells_operations].
  rewrite map_lookup_filter, cellsUpserted_other by exact Hne. simpl.
  destruct (scd_cells_operations db !! (cid, id)) as [lvl|]; [|reflexivity].
  simpl. rewrite option_guard_True; [reflexivity|]. simpl. prop_tauto.
Qed.

Lemma pushed_cells_own operation now db cid lvl :
  scd_cells_operations (pushed operation now db) !! (cid, ID operation) = Some lvl →
  ∃ c, c ∈ Cells operation ∧ cid = int64 c ∧ lvl = Level c.
Proof.
  unfold pushed, deleteLeftOverCellsForOperationQuery.
  cbn [scd_cells_operations]. rewrite map_lookup_filter_Some. cbn [fst snd].
  intros [Hl Hkeep].
  assert (cid ∈ int64 <$> Cells operation) as Hcid.
  { destruct (decide (cid ∈ int64 <$> Cells operation)); [assumption|prop_tauto]. }
  assert (cid ∈ (cellRows operation).*1) as Hrows.
  { rewrite cellRows_fmap, <- list_fmap_compose. exact Hcid. }
  destruct (cellsUpserted_written (cellRows operation) (ID operation) now
              (upsertOperationsQuery operation now db).2 cid Hrows) as (lvl' & Hl' & Hin).
  rewrite Hl in Hl'. injection Hl' as <-.
  rewrite cellRows_fmap in Hin. apply list_elem_of_fmap in Hin as (c & [= -> ->] & Hc).
  eauto.
Qed.

Lemma pushed_cells_written operation now db c :
  c ∈ Cells operation →
  ∃ c', c' ∈ Cells operation ∧ int64 c' = int64 c
        ∧ scd_cells_operations (pushed operation now db) !! (int64 c, ID operation)
          = Some (Level c').
Proof.
  intros Hc.
  assert (int64 c ∈ int64 <$> Cells operation) as Hcid
    by (apply list_elem_of_fmap_2; exact Hc).
  assert (int64 c ∈ (cellRows operation).*1) as Hrows.
  { rewrite cellRows_fmap, <- list_fmap_compose. exact Hcid. }
  destruct (cellsUpserted_written (cellRows operation) (ID operation) now
              (upsertOperationsQuery operation now db).2 _ Hrows) as (lvl & Hl & Hin).
  rewrite cellRows_fmap in Hin. apply list_elem_of_fmap in Hin as (c' & [= Heq ->] & Hc').
  exists c'. split_and!; [exact Hc'|congruence|].
  unfold pushed, deleteLeftOverCellsForOperationQuery.
  cbn [scd_cells_operations]. apply map_lookup_filter_Some. split; [exact Hl|].
  cbn [fst snd]. prop_tauto.
Qed.

(** ** From UpsertOperation to its write *)

Lemma searchOperations_frame v4d q res q' :
  searchOperations v4d q = (res, q') →
  q_db q' = q_db q ∧ q_now q' = q_now q.
Proof.
  unfold searchOperations, fail.
  destruct (SpatialVolume v4d) as [sv|]; [|intros [= <- <-]; split; reflexivity].
  destruct (Footprint sv) as [fp|]; [|intros [= <- <-]; split; reflexivity].
  destruct (CalculateCovering fp) as [[|c cells]|e];
    try (intros [= <- <-]; split; reflexivity).
  unfold fetchOperations, bind. rewrite statement_run.
  destruct (faulty q); intros [= <- <-]; split; reflexivity.
Qed.

Lemma checkConflicts_frame operation key q res q' :
  checkConflicts operation key q = (res, q') →
  q_db q' = q_db q ∧ q_now q' = q_now q.
Proof.
  assert (bind (searchOperations (volumeOf operation))
            (λ operations,
               match checkOVNs (list_to_set key) operations with
               | Some id => fail (ErrMissingOVNs id)
               | None => ret tt
               end) q = (res, q') →
          q_db q' = q_db q ∧ q_now q' = q_now q) as Hsearch.
  { unfold bind.
    destruct (searchOperations (volumeOf operation) q) as [[ops|e] q1] eqn:Hs;
      apply searchOperations_frame in Hs.
    - destruct (checkOVNs _ _); intros [= <- <-]; exact Hs.
    - intros [= <- <-]. exact Hs. }
  unfold checkConflicts.
  destruct (State operation); try exact Hsearch;
    intros [= <- <-]; split; reflexivity.
Qed.

(** An upsert either fails before its write, leaving the relations alone,
    or is the write [pushOperation] of the validated Operation on a handle
    with the same relations and timestamp. *)
Lemma UpsertOperation_inv operation key q res q' :
  UpsertOperation operation key q = (res, q') →
  ((∃ e, res = Err e) ∧ q_db q' = q_db q)
  ∨ ∃ st et q1,
      checkExisting (stored (ID operation) (q_db q)) operation = None
      ∧ ValidateTimeRange (StartTime operation) (EndTime operation) = Ok (st, et)
      ∧ q_db q1 = q_db q ∧ q_now q1 = q_now q
      ∧ pushOperation (withTimeRange operation st et) q1 = (res, q').
Proof.
  rewrite UpsertOperation_run. destruct (faulty q).
  { intros [= <- <-]. left. split; [eauto|reflexivity]. }
  unfold upsertFetched.
  destruct (checkExisting _ _) as [c|] eqn:Hc.
  { intros [= <- <-]. left. split; [eauto|reflexivity]. }
  unfold bind at 1. unfold validated.
  destruct (ValidateTimeRange _ _) as [[st et]|e] eqn:Hv.
  2:{ intros [= <- <-]. left. split; [eauto|reflexivity]. }
  unfold ret at 1. unfold bind.
  destruct (checkConflicts _ key (advance q)) as [[u|e] q1] eqn:Hcc;
    apply checkConflicts_frame in Hcc as [Hdb Hnow].
  - intros Hpush. right. exists st, et, q1. split_and!; auto.
  - intros [= <- <-]. left. split; [eauto|exact Hdb].
Qed.

Lemma UpsertOperation_Ok operation key q o subs q' :
  UpsertOperation operation key q = (Ok (o, subs), q') →
  ∃ st et,
    checkExisting (stored (ID operation) (q_db q)) operation = None
    ∧ ValidateTimeRange (StartTime operation) (EndTime operation) = Ok (st, et)
    ∧ q_db q' = pushed (withTimeRange operation st et) (q_now q) (q_db q)
    ∧ o = pushedOperation (withTimeRange operation st et) (q_now q) (q_db q)
    ∧ subs = subscriptionsIntersecting (q_db q') (int64 <$> Cells operation).
Proof.
  intros Hrun. apply UpsertOperation_inv in Hrun as [[[e He] _]|Hrun]; [discriminate|].
  destruct Hrun as (st & et & q1 & Hc & Hv & Hdb & Hnow & Hpush).
  apply pushOperation_inv in Hpush as [_ (Hdb' & Ho & Hsubs)].
  rewrite Hdb, Hnow in Hdb', Ho. exists st, et. split_and!; auto.
Qed.

(** ** The write paths return *)

Lemma upsertCells_no_fault rows id q :
  q_faults q = [] →
  upsertCells rows id q
  = (Ok tt, mkQueryable (cellsUpserted rows id (q_now q) (q_db q)) (q_now q) []).
Proof.
  revert q. induction rows as [|[cid clevel] rows IH]; intros [db now faults] Hf;
    simpl in Hf; subst faults; [reflexivity|].
  cbn [upsertCells]. unfold bind. rewrite ExecContext_run.
  cbn [faulty q_faults q_db q_now tail]. rewrite IH by reflexivity.
  reflexivity.
Qed.

(** On a handle whose calls all succeed, [pushOperation] returns the
    written Operation and the Subscriptions to notify. *)
Lemma pushOperation_no_fault operation q :
  q_faults q = [] →
  pushOperation operation q
  = (Ok (pushedOperation operation (q_now q) (q_db q),
         subscriptionsIntersecting (pushed operation (q_now q) (q_db q))
           (int64 <$> Cells operation)),
     mkQueryable (pushed operation (q_now q) (q_db q)) (q_now q) []).
Proof.
  destruct q as [db now faults]. cbn [q_faults q_db q_now]. intros ->.
  unfold pushOperation, bind. rewrite fetchOperation_upsert_run.
  cbn [faulty q_faults q_db q_now tail].
  rewrite upsertCells_no_fault by reflexivity. cbn [q_db q_now].
  rewrite ExecContext_run. cbn [faulty q_faults q_db q_now tail].
  unfold fetchSubscriptionsForNotification. rewrite QueryContext_run.
  cbn [faulty q_faults]. reflexivity.
Qed.

(** So does [UpsertOperation], once its checks pass: an upsert that is not
    rejected by the version and ownership checks, the time-range validation
    or the OVN check returns a result. *)
Lemma UpsertOperation_no_fault operation key db now st et :
  checkExisting (stored (ID operation) db) operation = None →
  ValidateTimeRange (StartTime operation) (EndTime operation) = Ok (st, et) →
  (checks_OVNs (State operation) = false
   ∨ (checks_OVNs (State operation) = true ∧ Cells operation ≠ []
      ∧ checkOVNs (list_to_set key)
          (found_conflicts (withTimeRange operation st et) (mkQueryable db now []))
        = None)) →
  ∃ o subs q',
    UpsertOperation operation key (mkQueryable db now []) = (Ok (o, subs), q')
    ∧ q_db q' = pushed (withTimeRange operation st et) now db.
Proof.
  intros Hc Hv Hcheck. rewrite UpsertOperation_run.
  cbn [faulty q_faults q_db].
  change (advance (mkQueryable db now [])) with (mkQueryable db now []).
  rewrite (upsertFetched_run _ _ _ st et) by assumption.
  unfold bind. destruct Hcheck as [Hs|(Hs & Hcells & Hovn)].
  - rewrite checkConflicts_unchecked by exact Hs.
    rewrite pushOperation_no_fault by reflexivity. eauto.
  - rewrite checkConflicts_run by assumption. cbn [faulty q_faults].
    change (advance (mkQueryable db now [])) with (mkQueryable db now []).
    rewrite Hovn. rewrite pushOperation_no_fault by reflexivity. eauto.
Qed.

(** ** Version monotonicity *)

Lemma UpsertOperation_version_step operation key q o subs q' :
  UpsertOperation operation key q = (Ok (o, subs), q') →
  ID o = ID operation
  ∧ Version o = storedVersion (ID operation) (q_db q) + 1
  ∧ storedVersion (ID operation) (q_db q') = Version o
  ∧ ∀ id, id ≠ ID operation → storedVersion id (q_db q') = storedVersion id (q_db q).
Proof.
  intros Hrun. apply UpsertOperation_Ok in Hrun
    as (st & et & _ & _ & Hdb & -> & _).
  unfold storedVersion. rewrite Hdb, pushed_operations. split_and!.
  - reflexivity.
  - reflexivity.
  - simpl. rewrite lookup_insert_eq. reflexivity.
  - intros id Hne. simpl. rewrite lookup_insert_ne by congruence. reflexivity.
Qed.

(** C6. A successful upsert returns, and leaves stored, the Version
    [COALESCE(old, 0) + 1]: the Version of the row before the call plus 1,
    and 1 when there was no row. Hence, in any sequence of upserts that all
    succeed, the Versions returned for one ID count up by exactly 1 from the
    Version stored at the start, that is 1, 2, 3, ... when the sequence
    starts without a row for that ID. *)
Theorem UpsertOperation_version :
  (∀ operation key q o subs q',
     UpsertOperation operation key q = (Ok (o, subs), q') →
     Version o = default 0 (version <$> scd_operations (q_db q) !! ID operation) + 1
     ∧ version <$> scd_operations (q_db q') !! ID operation = Some (Version o))
  ∧ (∀ calls db os db' id,
       upsertAll calls db = Some (os, db') →
       Version <$> filter (λ o, ID o = id) os
       = seqZ (default 0 (version <$> scd_operations db !! id) + 1)
              (Z.of_nat (length (filter (λ o, ID o = id) os)))).
Proof.
  split.
  - intros operation key q o subs q' Hrun.
    apply UpsertOperation_Ok in Hrun as (st & et & _ & _ & Hdb & -> & _).
    rewrite Hdb, pushed_operations. split; [reflexivity|].
    simpl. rewrite lookup_insert_eq. reflexivity.
  - intros calls db os db' id. fold (storedVersion id db).
    revert db os. induction calls as [|[[[operation key] now] faults] calls IH];
      intros db os Hall.
    + injection Hall as <- <-. reflexivity.
    + simpl in Hall.
      destruct (UpsertOperation operation key (mkQueryable db now faults))
        as [[[o subs]|e] q'] eqn:Hrun; [|discriminate].
      destruct (upsertAll calls (q_db q')) as [[os' db'']|] eqn:Hrest; [|discriminate].
      injection Hall as <- <-.
      apply UpsertOperation_version_step in Hrun as (Hid & Hv & Hstored & Hother).
      simpl in Hv, Hother. specialize (IH _ _ Hrest).
      rewrite filter_cons. destruct (decide (ID o = id)) as [Heq|Hne].
      * rewrite Hid in Heq. subst id. rewrite Hstored in IH.
        rewrite fmap_cons, IH. cbn [length].
        rewrite (seqZ_cons _ (Z.of_nat (S _))) by lia.
        rewrite Hv. f_equal. f_equal; lia.
      * rewrite Hid in Hne. rewrite Hother in IH by congruence. exact IH.
Qed.

(** ** Cell Index after an upsert *)

(** C7. After a successful upsert of an Operation with cell set [C] (cell
    identifiers being 64-bit values), the Cell Index rows of its ID are
    exactly one row [(int64 c, Level c)] per cell [c] of [C]: every cell of
    [C] has its row with its level, and no row of that ID for a cell outside
    [C] is left, whatever rows an earlier write of the ID had put there. The
    rows of other Operations are untouched, and the returned Operation
    carries [C]. *)
Theorem UpsertOperation_cell_index operation key q o subs q' :
  Forall is_uint64 (Cells operation) →
  UpsertOperation operation key q = (Ok (o, subs), q') →
  (∀ cid lvl,
     scd_cells_operations (q_db q') !! (cid, ID operation) = Some lvl
     ↔ ∃ c, c ∈ Cells operation ∧ cid = int64 c ∧ lvl = Level c)
  ∧ (∀ cid id, id ≠ ID operation →
     scd_cells_operations (q_db q') !! (cid, id)
     = scd_cells_operations (q_db q) !! (cid, id))
  ∧ Cells o = Cells operation.
Proof.
  intros Hwf Hrun.
  apply UpsertOperation_Ok in Hrun as (st & et & _ & _ & Hdb & -> & _).
  rewrite Hdb. split_and!.
  - intros cid lvl. split.
    + intros Hl.
      exact (pushed_cells_own (withTimeRange operation st et) _ _ _ _ Hl).
    + intros (c & Hc & -> & ->).
      destruct (pushed_cells_written (withTimeRange operation st et)
                  (q_now q) (q_db q) c Hc) as (c' & Hc' & Heq & Hl).
      simpl in Hc'. rewrite Forall_forall in Hwf.
      apply int64_inj in Heq; [|apply Hwf; assumption..].
      subst c'. exact Hl.
  - intros cid id Hne.
    exact (pushed_cells_other (withTimeRange operation st et) _ _ cid id Hne).
  - reflexivity.
Qed.

(** ** Delete *)

Lemma populateOperationCells_run old q :
  populateOperationCells old q =
  if faulty q then (Err ErrBackend, advance q)
  else (Ok (withCells old (uint64 <$> selectCells (ID old) (q_db q))), advance q).
Proof.
  unfold populateOperationCells, bind. rewrite QueryContext_run.
  destruct (faulty q); reflexivity.
Qed.

(** What a call of [DeleteOperation] returned, and what it left behind. *)
Lemma DeleteOperation_inv id o q res q' :
  DeleteOperation id o q = (res, q') →
  q_now q' = q_now q
  ∧ match res with
    | Ok (old, subs) =>
        ∃ r, scd_operations (q_db q) !! id = Some r
          ∧ owner r = o
          ∧ old = withCells (scan (id, r)) (uint64 <$> selectCells id (q_db q))
          ∧ subs = subscriptionsIntersecting (q_db q) (int64 <$> Cells old)
          ∧ q_db q' = deleteImplicitSubscriptionQuery (subscription_id r) o (q_now q)
                        (deleteQuery id o (q_now q) (q_db q))
    | Err e =>
        q_db q' = q_db q
        ∨ (e = ErrBackend ∧ q_db q' = deleteQuery id o (q_now q) (q_db q))
    end.
Proof.
  rewrite DeleteOperation_run. destruct (faulty q).
  { intros [= <- <-]. split; [reflexivity|]. left. reflexivity. }
  unfold stored. destruct (scd_operations (q_db q) !! id) as [r|] eqn:Hr; simpl.
  2:{ intros [= <- <-]. split; [reflexivity|]. left. reflexivity. }
  destruct (decide (owner r ≠ o)) as [Hne|Heq].
  { intros [= <- <-]. split; [reflexivity|]. left. reflexivity. }
  apply dec_stable in Heq.
  unfold bind at 1. rewrite populateOperationCells_run.
  destruct (faulty (advance q)).
  { intros [= <- <-]. split; [reflexivity|]. left. reflexivity. }
  unfold bind at 1. unfold fetchSubscriptionsForNotification.
  rewrite QueryContext_run.
  destruct (faulty (advance (advance q))).
  { intros [= <- <-]. split; [reflexivity|]. left. reflexivity. }
  unfold bind at 1. rewrite ExecContext_run.
  destruct (faulty (advance (advance (advance q)))).
  { intros [= <- <-]. split; [reflexivity|]. left. reflexivity. }
  unfold bind at 1. rewrite ExecContext_run.
  match goal with |- context [faulty ?q4] => destruct (faulty q4) end.
  { intros [= <- <-]. split; [reflexivity|]. right. split; reflexivity. }
  intros [= <- <-]. split; [reflexivity|].
  exists r. split_and!; reflexivity || assumption.
Qed.

(** On a handle whose calls all succeed, the delete of a stored Operation
    by its owner returns. *)
Lemma DeleteOperation_no_fault id o db now r :
  scd_operations db !! id = Some r → owner r = o →
  ∃ old subs q', DeleteOperation id o (mkQueryable db now []) = (Ok (old, subs), q').
Proof.
  intros Hr Ho. rewrite DeleteOperation_run. cbn [faulty q_faults q_db].
  rewrite (stored_Some _ _ _ Hr).
  destruct (decide (Owner (scan (id, r)) ≠ o)) as [Hne|_]; [contradiction|].
  change (advance (mkQueryable db now [])) with (mkQueryable db now []).
  unfold bind at 1. rewrite populateOperationCells_run. cbn [faulty q_faults].
  change (advance (mkQueryable db now [])) with (mkQueryable db now []).
  unfold bind at 1. unfold fetchSubscriptionsForNotification.
  rewrite QueryContext_run. cbn [faulty q_faults].
  change (advance (mkQueryable db now [])) with (mkQueryable db now []).
  unfold bind at 1. rewrite ExecContext_run. cbn [faulty q_faults q_db q_now tail].
  unfold bind at 1. rewrite ExecContext_run. cbn [faulty q_faults q_db q_now tail].
  eauto.
Qed.

Lemma deleteQuery_owned id o now db r :
  scd_operations db !! id = Some r → owner r = o →
  deleteQuery id o now db =
  mkDB (delete id (scd_operations db))
       (if cells_on_delete_cascade
        then filter (λ kv : Z * string * Z, kv.1.2 ≠ id) (scd_cells_operations db)
        else scd_cells_operations db)
       (scd_subscriptions db).
Proof.
  intros Hr Ho. unfold deleteQuery. rewrite Hr.
  destruct (decide (owner r = o)); [reflexivity|contradiction].
Qed.

Lemma deleteImplicitSubscriptionQuery_frame sid o now db :
  scd_operations (deleteImplicitSubscriptionQuery sid o now db) = scd_operations db
  ∧ scd_cells_operations (deleteImplicitSubscriptionQuery sid o now db)
    = scd_cells_operations db
  ∧ ∀ sid', sid' ≠ sid →
      scd_subscriptions (deleteImplicitSubscriptionQuery sid o now db) !! sid'
      = scd_subscriptions db !! sid'.
Proof.
  unfold deleteImplicitSubscriptionQuery.
  destruct (scd_subscriptions db !! sid) as [s|]; [|split_and!; reflexivity].
  destruct (_ && _); split_and!; try reflexivity.
  intros sid' Hne. simpl. apply lookup_delete_ne. congruence.
Qed.

Lemma countReferencing_zero sid db :
  forallb (λ n, bool_decide (0 = n)) (countReferencing sid db) = true
  ↔ ∀ id r, scd_operations db !! id = Some r → subscription_id r ≠ sid.
Proof.
  unfold countReferencing. simpl. rewrite andb_true_r, bool_decide_eq_true. split.
  - intros Hlen id r Hr Hsid.
    assert (filter (λ kr : string * OperationRow, subscription_id kr.2 = sid)
              (map_to_list (scd_operations db)) = []) as Hnil
      by (apply nil_length_inv; lia).
    apply (filter_nil_not_elem_of _ _ (id, r)) in Hnil; [|exact Hsid].
    apply Hnil. apply elem_of_map_to_list. exact Hr.
  - intros Hnone.
    destruct (filter _ _) as [|[id r] l] eqn:Hf; [reflexivity|].
    exfalso.
    assert ((id, r) ∈ filter (λ kr : string * OperationRow, subscription_id kr.2 = sid)
              (map_to_list (scd_operations db))) as Hin by (rewrite Hf; left).
    apply list_elem_of_filter in Hin as [Hsid Hin].
    apply elem_of_map_to_list in Hin. exact (Hnone _ _ Hin Hsid).
Qed.

Lemma deleteImplicitSubscriptionQuery_lookup sid o now db s :
  scd_subscriptions db !! sid = Some s →
  (scd_subscriptions (deleteImplicitSubscriptionQuery sid o now db) !! sid = None
   ∧ sub_owner s = o ∧ implicit s = true
   ∧ ∀ id r, scd_operations db !! id = Some r → subscription_id r ≠ sid)
  ∨ (scd_subscriptions (deleteImplicitSubscriptionQuery sid o now db) !! sid = Some s
     ∧ ¬ (sub_owner s = o ∧ implicit s = true
          ∧ ∀ id r, scd_operations db !! id = Some r → subscription_id r ≠ sid)).
Proof.
  intros Hs. unfold deleteImplicitSubscriptionQuery. rewrite Hs.
  destruct (bool_decide (sub_owner s = o) && implicit s
            && forallb (λ n, bool_decide (0 = n)) (countReferencing sid db)) eqn:Hcond.
  - left. rewrite !andb_true_iff, bool_decide_eq_true, countReferencing_zero in Hcond.
    simpl. rewrite lookup_delete_eq. prop_tauto.
  - right. split; [exact Hs|]. intros (Ho & Hi & Hn).
    rewrite <- countReferencing_zero in Hn.
    rewrite (bool_decide_eq_true_2 _ Ho), Hi, Hn in Hcond. discriminate.
Qed.

Lemma DeleteOperation_Ok id o q old subs q' :
  DeleteOperation id o q = (Ok (old, subs), q') →
  ∃ r, scd_operations (q_db q) !! id = Some r
    ∧ owner r = o
    ∧ SubscriptionID old = subscription_id r
    ∧ scd_operations (q_db q') = delete id (scd_operations (q_db q))
    ∧ scd_cells_operations (q_db q')
      = (if cells_on_delete_cascade
         then filter (λ kv : Z * string * Z, kv.1.2 ≠ id) (scd_cells_operations (q_db q))
         else scd_cells_operations (q_db q))
    ∧ q_db q' = deleteImplicitSubscriptionQuery (subscription_id r) o (q_now q)
                  (deleteQuery id o (q_now q) (q_db q))
    ∧ scd_subscriptions (deleteQuery id o (q_now q) (q_db q)) = scd_subscriptions (q_db q).
Proof.
  intros Hrun. apply DeleteOperation_inv in Hrun as [_ (r & Hr & Ho & -> & _ & Hdb)].
  exists r. rewrite Hdb.
  destruct (deleteImplicitSubscriptionQuery_frame (subscription_id r) o (q_now q)
              (deleteQuery id o (q_now q) (q_db q))) as (-> & -> & _).
  rewrite (deleteQuery_owned _ _ _ _ _ Hr Ho). split_and!; reflexivity || assumption.
Qed.

(** C9. After a successful delete, the Subscription row the deleted
    Operation pointed to is gone if and only if it was marked implicit, was
    owned by the deleting owner, and no Operation that remains refers to its
    ID; otherwise it is as it was, as is every other Subscription row. In
    particular the delete of the last Operation that refers to an implicit
    Subscription of the same owner deletes that Subscription, and the delete
    of one of several Operations that share it leaves it in place. *)
Theorem DeleteOperation_implicit_subscription id o q old subs q' :
  DeleteOperation id o q = (Ok (old, subs), q') →
  (∃ r, scd_operations (q_db q) !! id = Some r
        ∧ SubscriptionID old = subscription_id r)
  ∧ scd_operations (q_db q') = delete id (scd_operations (q_db q))
  ∧ (∀ s, scd_subscriptions (q_db q) !! SubscriptionID old = Some s →
       (scd_subscriptions (q_db q') !! SubscriptionID old = None
        ↔ implicit s = true ∧ sub_owner s = o
          ∧ ∀ id' r', scd_operations (q_db q') !! id' = Some r' →
                      subscription_id r' ≠ SubscriptionID old)
       ∧ (scd_subscriptions (q_db q') !! SubscriptionID old = None
          ∨ scd_subscriptions (q_db q') !! SubscriptionID old = Some s)
       ∧ (implicit s = true → sub_owner s = o →
          (∀ id' r', id' ≠ id → scd_operations (q_db q) !! id' = Some r' →
                     subscription_id r' ≠ SubscriptionID old) →
          scd_subscriptions (q_db q') !! SubscriptionID old = None)
       ∧ (∀ id' r', id' ≠ id → scd_operations (q_db q) !! id' = Some r' →
                    subscription_id r' = SubscriptionID old →
          scd_subscriptions (q_db q') !! SubscriptionID old = Some s))
  ∧ (∀ sid, sid ≠ SubscriptionID old →
       scd_subscriptions (q_db q') !! sid = scd_subscriptions (q_db q) !! sid).
Proof.
  intros Hrun.
  apply DeleteOperation_Ok in Hrun as (r & Hr & Ho & Hsid & Hops & _ & Hdb & Hsubs).
  rewrite Hsid. split; [eauto|]. split; [exact Hops|].
  set (db1 := deleteQuery id o (q_now q) (q_db q)) in *.
  assert (scd_operations db1 = scd_operations (q_db q')) as Hops1.
  { rewrite Hdb.
    destruct (deleteImplicitSubscriptionQuery_frame (subscription_id r) o (q_now q) db1)
      as (-> & _ & _). reflexivity. }
  split.
  - intros s Hs. rewrite <- Hsubs in Hs.
    pose proof (deleteImplicitSubscriptionQuery_lookup
                  (subscription_id r) o (q_now q) db1 s Hs) as Hcase.
    rewrite <- Hdb, Hops1 in Hcase.
    assert (scd_subscriptions (q_db q') !! subscription_id r = None
            ↔ implicit s = true ∧ sub_owner s = o
              ∧ ∀ id' r', scd_operations (q_db q') !! id' = Some r' →
                          subscription_id r' ≠ subscription_id r) as Hiff.
    { destruct Hcase as [(Hn & H1 & H2 & H3)|[Hsome Hnot]].
      - prop_tauto.
      - rewrite Hsome. split; [discriminate|prop_tauto]. }
    split_and!.
    + exact Hiff.
    + destruct Hcase as [(Hn & _)|[Hsome _]]; auto.
    + intros Hi Hown Hlast. apply Hiff. split_and!; [assumption..|].
      intros id' r' Hr'. rewrite Hops in Hr'.
      apply lookup_delete_Some in Hr' as [Hne Hr']. eauto.
    + intros id' r' Hne Hr' Href.
      destruct Hcase as [(_ & _ & _ & Hnone)|[Hsome _]]; [|exact Hsome].
      exfalso. apply (Hnone id' r'); [|exact Href].
      rewrite Hops. apply lookup_delete_Some. split; [congruence|exact Hr'].
  - intros sid Hne. rewrite Hdb.
    destruct (deleteImplicitSubscriptionQuery_frame (subscription_id r) o (q_now q) db1)
      as (_ & _ & Hother).
    rewrite Hother by exact Hne. rewrite Hsubs. reflexivity.
Qed.

(** [DeleteOperation] sends no statement to the Cell Index: what happens to
    the Cell Index rows of the deleted ID is what the declaration of
    [scd_cells_operations.operation_id] makes of the deletion of the
    Operation row. The rows of other Operations stay in both cases. *)
Lemma DeleteOperation_cell_index id o q old subs q' :
  DeleteOperation id o q = (Ok (old, subs), q') →
  scd_operations (q_db q') !! id = None
  ∧ (∀ cid, scd_cells_operations (q_db q') !! (cid, id)
            = if cells_on_delete_cascade then None
              else scd_cells_operations (q_db q) !! (cid, id))
  ∧ (∀ cid id', id' ≠ id →
       scd_cells_operations (q_db q') !! (cid, id')
       = scd_cells_operations (q_db q) !! (cid, id')).
Proof.
  intros Hrun.
  apply DeleteOperation_Ok in Hrun as (r & Hr & Ho & _ & Hops & Hcells & _ & _).
  rewrite Hops, Hcells. split_and!.
  - apply lookup_delete_eq.
  - intros cid. destruct cells_on_delete_cascade; [|reflexivity].
    apply map_lookup_filter_None. right. intros lvl _. simpl. prop_tauto.
  - intros cid id' Hne. destruct cells_on_delete_cascade; [|reflexivity].
    rewrite map_lookup_filter.
    destruct (scd_cells_operations (q_db q) !! (cid, id')) as [lvl|]; [|reflexivity].
    simpl. rewrite option_guard_True; [reflexivity|exact Hne].
Qed.

(** ** Failures in the middle of a write path *)

(** Inside the transaction the statements before a failing one have taken
    effect: when a write path returns an error, the relations behind the
    handle are those reached by the statements sent before the failing one.
    For an upsert these are the relations as they were, or with the
    Operation row written and some first part of the cell rows, or with
    every write done (when the last, reading statement fails); for a delete
    the relations as they were, or with the Operation row deleted and the
    implicit Subscription still there. *)
Lemma write_paths_stop_at_first_failure :
  (∀ operation key q e q',
     UpsertOperation operation key q = (Err e, q') →
     q_db q' = q_db q
     ∨ (e = ErrBackend
        ∧ ∃ st et,
            ValidateTimeRange (StartTime operation) (EndTime operation) = Ok (st, et)
            ∧ ((∃ k, (k ≤ length (Cells operation))%nat
                  ∧ q_db q' = cellsUpserted
                                (take k (cellRows operation)) (ID operation) (q_now q)
                                (upsertOperationsQuery (withTimeRange operation st et)
                                   (q_now q) (q_db q)).2)
               ∨ q_db q' = pushed (withTimeRange operation st et) (q_now q) (q_db q))))
  ∧ (∀ id o q e q',
       DeleteOperation id o q = (Err e, q') →
       q_db q' = q_db q
       ∨ (e = ErrBackend ∧ q_db q' = deleteQuery id o (q_now q) (q_db q))).
Proof.
  split.
  - intros operation key q e q' Hrun.
    apply UpsertOperation_inv in Hrun as [[_ Hdb]|Hrun]; [left; exact Hdb|].
    destruct Hrun as (st & et & q1 & _ & Hv & Hdb & Hnow & Hpush).
    apply pushOperation_inv in Hpush as [_ (-> & Hcase)].
    rewrite Hdb, Hnow in Hcase.
    destruct Hcase as [Hsame|[(k & Hk & Hpart)|Hall]].
    + left. exact Hsame.
    + right. split; [reflexivity|]. exists st, et. split; [exact Hv|]. left.
      exists k. split; [|exact Hpart].
      rewrite cellRows_fmap, length_fmap in Hk. exact Hk.
    + right. split; [reflexivity|]. exists st, et. split; [exact Hv|]. right.
      exact Hall.
  - intros id o q e q' Hrun. apply DeleteOperation_inv in Hrun as [_ Hcase].
    exact Hcase.
Qed.

(** * Further properties of the store *)

(** ** The cell identifier conversions *)

(** X19. [int64(cell)] and [s2.CellID(uint64(cell))] undo each other: a
    64-bit unsigned cell identifier comes back from the signed column value
    it is stored as, every stored value is in the signed 64-bit range, and a
    signed 64-bit value comes back from the identifier it is read as. *)
Theorem cell_id_round_trip :
  (∀ c, is_uint64 c → is_int64 (int64 c) ∧ uint64 (int64 c) = c)
  ∧ (∀ z, is_int64 z → is_uint64 (uint64 z) ∧ int64 (uint64 z) = z).
Proof.
  split.
  - intros c Hc. split; [|apply uint64_int64; exact Hc].
    unfold is_int64, int64.
    pose proof (Z.mod_pos_bound (c + 2 ^ 63) (2 ^ 64) ltac:(lia)). lia.
  - intros z Hz. unfold is_int64 in Hz. unfold is_uint64, uint64, int64.
    pose proof (Z.mod_pos_bound z (2 ^ 64) ltac:(lia)) as Hb.
    split; [lia|].
    destruct (Z_lt_le_dec z 0).
    + replace z with ((z + 2 ^ 64) + (-1) * 2 ^ 64) at 1 by lia.
      rewrite Z.mod_add, (Z.mod_small (z + 2 ^ 64)) by lia.
      replace (z + 2 ^ 64 + 2 ^ 63) with ((z + 2 ^ 63) + 1 * 2 ^ 64) by lia.
      rewrite Z.mod_add, Z.mod_small by lia. lia.
    + rewrite (Z.mod_small z) by lia. rewrite Z.mod_small by lia. lia.
Qed.

(** ** The loop over the found Operations *)

(** X17. The loop of [UpsertOperation] over the found Operations lets the
    write go on exactly when every found Operation has its OVN in the
    supplied set and no two found Operations have the same OVN: a supplied
    OVN is deleted when it is matched, so it acknowledges one Operation
    only. *)
Theorem checkOVNs_passes (K : gset string) operations :
  checkOVNs K operations = None
  ↔ NoDup (OVN <$> operations) ∧ ∀ o, o ∈ operations → OVN o ∈ K.
Proof.
  revert K. induction operations as [|op rest IH]; intros K.
  - simpl. split; [intros _; split; [constructor|]|reflexivity].
    intros o Ho. inversion Ho.
  - simpl. rewrite NoDup_cons.
    destruct (decide (OVN op ∈ K)) as [Hin|Hin].
    + rewrite IH. split.
      * intros [Hnd Hall]. split_and!.
        -- intros Hdup. apply list_elem_of_fmap in Hdup as (o & Heq & Ho).
           specialize (Hall o Ho). rewrite elem_of_difference, elem_of_singleton in Hall.
           destruct Hall as [_ Hne]. apply Hne. symmetry. exact Heq.
        -- exact Hnd.
        -- intros o Ho. apply elem_of_cons in Ho as [->|Ho]; [exact Hin|].
           specialize (Hall o Ho). rewrite elem_of_difference in Hall. apply Hall.
      * intros [[Hnotin Hnd] Hall]. split; [exact Hnd|].
        intros o Ho. rewrite elem_of_difference, elem_of_singleton. split.
        -- apply Hall. right. exact Ho.
        -- intros Heq. apply Hnotin. rewrite <- Heq.
           apply list_elem_of_fmap_2. exact Ho.
    + split; [discriminate|]. intros [_ Hall]. exfalso. apply Hin. apply Hall. left.
Qed.

(** ** The read paths *)

(** X1. Unless the query fails at the backing store, [GetOperation]
    returns the row of the ID as an Operation whose OVN is derived from the
    row's [updated_at] and the ID and whose Cells are empty, and NotFound
    when the ID has no row; it never returns [sql.ErrNoRows] or the error
    for more than one row. *)
Theorem GetOperation_result id q :
  faulty q = false →
  GetOperation id q
  = (match scd_operations (q_db q) !! id with
     | Some r => Ok (scan (id, r))
     | None => Err (ErrCode dsserr.NotFound)
     end, advance q)
  ∧ ∀ o, (GetOperation id q).1 = Ok o →
         ID o = id ∧ Cells o = []
         ∧ ∃ r, scd_operations (q_db q) !! id = Some r
                ∧ OVN o = NewOVNFromTime (updated_at r) id
                ∧ Version o = version r ∧ Owner o = owner r.
Proof.
  intros Hf. unfold GetOperation. rewrite fetchOperationByID_run, Hf.
  unfold stored. destruct (scd_operations (q_db q) !! id) as [r|]; simpl.
  - split; [reflexivity|]. intros o [= <-]. simpl. eauto 10.
  - split; [reflexivity|]. intros o Ho. discriminate.
Qed.

(** X11. [GetOperation] and [SearchOperations] only read: whatever they are
    asked and whether or not the query fails, the relations behind the
    handle and its transaction timestamp are what they were. *)
Theorem read_paths_read_only q :
  (∀ id, q_db (GetOperation id q).2 = q_db q
         ∧ q_now (GetOperation id q).2 = q_now q)
  ∧ (∀ v4d, q_db (SearchOperations v4d q).2 = q_db q
            ∧ q_now (SearchOperations v4d q).2 = q_now q).
Proof.
  split.
  - intros id. unfold GetOperation. rewrite fetchOperationByID_run.
    destruct (faulty q); [split; reflexivity|].
    destruct (stored id (q_db q)); split; reflexivity.
  - intros v4d. unfold SearchOperations.
    destruct (searchOperations v4d q) as [res q'] eqn:Hs.
    apply searchOperations_frame in Hs. exact Hs.
Qed.

(** ** Delete: errors and results *)

(** X4. The delete of an ID that has no row fails with NotFound (with the
    backing-store error when the fetch itself fails) and changes nothing. *)
Theorem DeleteOperation_missing id o q :
  scd_operations (q_db q) !! id = None →
  rejects (DeleteOperation id o) q (ErrCode dsserr.NotFound).
Proof.
  intros Hnone. unfold rejects. rewrite DeleteOperation_run.
  destruct (faulty q).
  - exists ErrBackend, (advance q). split_and!; [reflexivity..|discriminate].
  - unfold stored. rewrite Hnone. simpl.
    exists (ErrCode dsserr.NotFound), (advance q). split_and!; reflexivity.
Qed.

(** X5. A successful delete returns the Operation as it was stored before
    the call: every field scanned from the row (ID, owner, Version, URL,
    altitude bounds, times, Subscription), the OVN derived from the row's
    [updated_at], the zero State, and the Cells read back from its Cell
    Index rows. The Subscriptions to notify are computed for those cells on
    the relations as they were before anything was deleted. *)
Theorem DeleteOperation_returns_snapshot id o q old subs q' :
  DeleteOperation id o q = (Ok (old, subs), q') →
  (∃ r, scd_operations (q_db q) !! id = Some r
        ∧ owner r = o
        ∧ old = withCells (scan (id, r)) (Cells old)
        ∧ ID old = id ∧ Owner old = o
        ∧ Version old = version r
        ∧ USSBaseURL old = url r
        ∧ AltitudeLower old = altitude_lower r
        ∧ AltitudeUpper old = altitude_upper r
        ∧ StartTime old = starts_at r
        ∧ EndTime old = ends_at r
        ∧ SubscriptionID old = subscription_id r
        ∧ OVN old = NewOVNFromTime (updated_at r) id
        ∧ State old = scdmodels.OperationStateUnknown)
  ∧ (∀ c, c ∈ Cells old
          ↔ ∃ cid, c = uint64 cid
                   ∧ is_Some (scd_cells_operations (q_db q) !! (cid, id)))
  ∧ subs = subscriptionsIntersecting (q_db q) (int64 <$> Cells old).
Proof.
  intros Hrun. apply DeleteOperation_inv in Hrun as [_ (r & Hr & Ho & -> & -> & _)].
  split_and!.
  - exists r. simpl. split_and!; auto.
  - intros c. simpl. unfold selectCells.
    rewrite list_elem_of_fmap. split.
    + intros (cid & -> & Hin). exists cid. split; [reflexivity|].
      apply list_elem_of_fmap in Hin as ([[cid' id'] lvl] & -> & Hin).
      apply list_elem_of_filter in Hin as [Hid Hin]. simpl in Hid. subst id'.
      apply elem_of_map_to_list in Hin. simpl. eauto.
    + intros (cid & -> & lvl & Hl). exists cid. split; [reflexivity|].
      apply list_elem_of_fmap. exists (cid, id, lvl). split; [reflexivity|].
      apply list_elem_of_filter. split; [reflexivity|].
      apply elem_of_map_to_list. exact Hl.
  - reflexivity.
Qed.

(** ** What a write path leaves alone *)

Lemma cellsUpserted_db1 rows operation now db :
  scd_operations
    (cellsUpserted rows (ID operation) now (upsertOperationsQuery operation now db).2)
  = <[ID operation := upsertedRow operation now db]> (scd_operations db)
  ∧ scd_subscriptions
      (cellsUpserted rows (ID operation) now (upsertOperationsQuery operation now db).2)
    = scd_subscriptions db
  ∧ ∀ cid id, id ≠ ID operation →
      scd_cells_operations
        (cellsUpserted rows (ID operation) now (upsertOperationsQuery operation now db).2)
        !! (cid, id)
      = scd_cells_operations db !! (cid, id).
Proof.
  destruct (cellsUpserted_frame rows (ID operation) now
              (upsertOperationsQuery operation now db).2) as [-> ->].
  split_and!; [reflexivity..|].
  intros cid id Hne. rewrite cellsUpserted_other by exact Hne. reflexivity.
Qed.

(** The relations a call of [UpsertOperation] can leave behind, whatever
    its result. *)
Lemma UpsertOperation_states operation key q :
  q_db (UpsertOperation operation key q).2 = q_db q
  ∨ ∃ st et,
      (∃ k, q_db (UpsertOperation operation key q).2
            = cellsUpserted (take k (cellRows operation)) (ID operation) (q_now q)
                (upsertOperationsQuery (withTimeRange operation st et)
                   (q_now q) (q_db q)).2)
      ∨ q_db (UpsertOperation operation key q).2
        = pushed (withTimeRange operation st et) (q_now q) (q_db q).
Proof.
  destruct (UpsertOperation operation key q) as [res q'] eqn:Hrun. simpl.
  apply UpsertOperation_inv in Hrun as [[_ Hdb]|Hrun]; [left; exact Hdb|].
  destruct Hrun as (st & et & q1 & _ & _ & Hdb & Hnow & Hpush).
  apply pushOperation_inv in Hpush as [_ Hres]. rewrite Hdb, Hnow in Hres.
  destruct res as [[o subs]|e].
  - destruct Hres as (Hdb' & _). right. exists st, et. right. exact Hdb'.
  - destruct Hres as (_ & [Hsame|[(k & _ & Hpart)|Hall]]).
    + left. exact Hsame.
    + right. exists st, et. left. exists k. exact Hpart.
    + right. exists st, et. right. exact Hall.
Qed.

(** X20. Whether it succeeds, is rejected or fails at any of its
    statements, an upsert leaves every Subscription row, the rows of every
    other Operation and the Cell Index rows of every other Operation as
    they were. *)
Theorem UpsertOperation_frame operation key q :
  scd_subscriptions (q_db (UpsertOperation operation key q).2)
  = scd_subscriptions (q_db q)
  ∧ (∀ id, id ≠ ID operation →
       scd_operations (q_db (UpsertOperation operation key q).2) !! id
       = scd_operations (q_db q) !! id)
  ∧ (∀ cid id, id ≠ ID operation →
       scd_cells_operations (q_db (UpsertOperation operation key q).2) !! (cid, id)
       = scd_cells_operations (q_db q) !! (cid, id)).
Proof.
  destruct (UpsertOperation_states operation key q)
    as [-> | (st & et & [(k & ->) | ->])].
  - split_and!; reflexivity.
  - destruct (cellsUpserted_db1 (take k (cellRows operation))
                (withTimeRange operation st et) (q_now q) (q_db q))
      as (Hops & Hsubs & Hcells).
    change (ID (withTimeRange operation st et)) with (ID operation)
      in Hops, Hsubs, Hcells.
    split_and!.
    + exact Hsubs.
    + intros id Hne. rewrite Hops. apply lookup_insert_ne. congruence.
    + exact Hcells.
  - split_and!.
    + apply pushed_subscriptions.
    + intros id Hne. rewrite pushed_operations. apply lookup_insert_ne.
      simpl. congruence.
    + intros cid id Hne.
      exact (pushed_cells_other (withTimeRange operation st et) _ _ cid id Hne).
Qed.

Lemma deleteQuery_frame id o now db :
  scd_subscriptions (deleteQuery id o now db) = scd_subscriptions db
  ∧ (∀ id', id' ≠ id →
       scd_operations (deleteQuery id o now db) !! id' = scd_operations db !! id')
  ∧ (∀ cid id', id' ≠ id →
       scd_cells_operations (deleteQuery id o now db) !! (cid, id')
       = scd_cells_operations db !! (cid, id'))
  ∧ (∀ id' r, scd_operations (deleteQuery id o now db) !! id' = Some r →
              scd_operations db !! id' = Some r).
Proof.
  unfold deleteQuery.
  destruct (scd_operations db !! id) as [r|] eqn:Hr; [|split_and!; auto].
  destruct (decide (owner r = o)); [|split_and!; auto].
  simpl. split_and!.
  - reflexivity.
  - intros id' Hne. apply lookup_delete_ne. congruence.
  - intros cid id' Hne. destruct cells_on_delete_cascade; [|reflexivity].
    rewrite map_lookup_filter.
    destruct (scd_cells_operations db !! (cid, id')) as [lvl|]; [|reflexivity].
    simpl. rewrite option_guard_True; [reflexivity|exact Hne].
  - intros id' r' Hr'. apply lookup_delete_Some in Hr' as [_ Hr']. exact Hr'.
Qed.

(** The relations a call of [DeleteOperation] can leave behind, whatever
    its result. *)
Lemma DeleteOperation_states id o q :
  q_db (DeleteOperation id o q).2 = q_db q
  ∨ q_db (DeleteOperation id o q).2 = deleteQuery id o (q_now q) (q_db q)
  ∨ ∃ r, scd_operations (q_db q) !! id = Some r ∧ owner r = o
         ∧ q_db (DeleteOperation id o q).2
           = deleteImplicitSubscriptionQuery (subscription_id r) o (q_now q)
               (deleteQuery id o (q_now q) (q_db q)).
Proof.
  destruct (DeleteOperation id o q) as [res q'] eqn:Hrun. simpl.
  apply DeleteOperation_inv in Hrun as [_ Hres].
  destruct res as [[old subs]|e].
  - destruct Hres as (r & Hr & Ho & _ & _ & Hdb). right. right. eauto.
  - destruct Hres as [Hsame|[_ Hpart]]; [left; exact Hsame|right; left; exact Hpart].
Qed.

(** X21. Whether it succeeds, is rejected or fails at any of its statements,
    a delete leaves the rows and the Cell Index rows of every other
    Operation as they were, and every Subscription row other than the one
    the Operation to delete refers to. *)
Theorem DeleteOperation_frame id o q :
  (∀ id', id' ≠ id →
     scd_operations (q_db (DeleteOperation id o q).2) !! id'
     = scd_operations (q_db q) !! id')
  ∧ (∀ cid id', id' ≠ id →
       scd_cells_operations (q_db (DeleteOperation id o q).2) !! (cid, id')
       = scd_cells_operations (q_db q) !! (cid, id'))
  ∧ (∀ sid, (∀ r, scd_operations (q_db q) !! id = Some r → subscription_id r ≠ sid) →
       scd_subscriptions (q_db (DeleteOperation id o q).2) !! sid
       = scd_subscriptions (q_db q) !! sid).
Proof.
  destruct (deleteQuery_frame id o (q_now q) (q_db q)) as (Hsubs & Hops & Hcells & _).
  destruct (DeleteOperation_states id o q) as [-> | [-> | (r & Hr & Ho & ->)]].
  - split_and!; reflexivity.
  - split_and!; [exact Hops|exact Hcells|]. intros sid _. rewrite Hsubs. reflexivity.
  - destruct (deleteImplicitSubscriptionQuery_frame (subscription_id r) o (q_now q)
                (deleteQuery id o (q_now q) (q_db q))) as (-> & -> & Hother).
    split_and!; [exact Hops|exact Hcells|].
    intros sid Hsid. rewrite Hother, Hsubs; [reflexivity|].
    intros Heq. exact (Hsid r Hr (eq_sym Heq)).
Qed.

(** ** What a successful upsert stores and returns *)

(** X7. A successful upsert stores under the ID a row with the caller's
    owner, URL, altitude bounds and Subscription, the two times as
    [ValidateTimeRange] left them, and the transaction timestamp as
    [updated_at]. The Operation it returns is that row with the OVN derived
    from the new timestamp and with the Cells of the input; its State is the
    zero value, not the State the caller sent, and the OVN the caller sent
    is not kept either. The Subscriptions to notify are computed for the new
    cells on the relations after the write. *)
Theorem UpsertOperation_stored_and_returned operation key q o subs q' :
  UpsertOperation operation key q = (Ok (o, subs), q') →
  ∃ st et r,
    ValidateTimeRange (StartTime operation) (EndTime operation) = Ok (st, et)
    ∧ scd_operations (q_db q') !! ID operation = Some r
    ∧ owner r = Owner operation ∧ url r = USSBaseURL operation
    ∧ altitude_lower r = AltitudeLower operation
    ∧ altitude_upper r = AltitudeUpper operation
    ∧ starts_at r = st ∧ ends_at r = et
    ∧ subscription_id r = SubscriptionID operation
    ∧ updated_at r = q_now q
    ∧ o = withCells (scan (ID operation, r)) (Cells operation)
    ∧ OVN o = NewOVNFromTime (q_now q) (ID operation)
    ∧ State o = scdmodels.OperationStateUnknown
    ∧ subs = subscriptionsIntersecting (q_db q') (int64 <$> Cells operation).
Proof.
  intros Hrun. apply UpsertOperation_Ok in Hrun as (st & et & _ & Hv & Hdb & -> & ->).
  exists st, et, (upsertedRow (withTimeRange operation st et) (q_now q) (q_db q)).
  rewrite Hdb, pushed_operations. simpl. rewrite lookup_insert_eq.
  split_and!; reflexivity || assumption.
Qed.

(** X8. An upsert never hands an Operation to another owner: when it
    succeeds on an ID that had a row, the owner of the row afterwards is the
    owner of the row before, and it is the caller. *)
Theorem UpsertOperation_keeps_owner operation key q o subs q' r :
  UpsertOperation operation key q = (Ok (o, subs), q') →
  scd_operations (q_db q) !! ID operation = Some r →
  owner r = Owner operation
  ∧ owner <$> scd_operations (q_db q') !! ID operation = Some (owner r)
  ∧ Owner o = owner r.
Proof.
  intros Hrun Hr.
  apply UpsertOperation_Ok in Hrun as (st & et & Hc & _ & Hdb & -> & _).
  rewrite (stored_Some _ _ _ Hr) in Hc. simpl in Hc.
  destruct (Empty (Version operation)); [discriminate|].
  destruct (negb (Matches (Version operation) (version r))); [discriminate|].
  destruct (decide (owner r ≠ Owner operation)) as [|Heq]; [discriminate|].
  apply dec_stable in Heq.
  rewrite Hdb, pushed_operations. simpl. rewrite lookup_insert_eq. simpl.
  split_and!; congruence.
Qed.

(** ** Invariants of the relations *)

Lemma cellsUpserted_db1_consistent rows operation now db :
  index_consistent db →
  index_consistent
    (cellsUpserted rows (ID operation) now (upsertOperationsQuery operation now db).2).
Proof.
  intros Hcons cid id Hs.
  destruct (cellsUpserted_db1 rows operation now db) as (-> & _ & Hcells).
  destruct (decide (id = ID operation)) as [->|Hne].
  - rewrite lookup_insert_eq. eauto.
  - rewrite lookup_insert_ne by congruence. apply (Hcons cid).
    rewrite <- Hcells by exact Hne. exact Hs.
Qed.

(** X9. No call of a write path leaves a Cell Index row whose Operation has
    no row: if the relations have none before, they have none after an
    upsert, whatever its result and wherever it failed, and none after a
    delete when the Cell Index follows the deletion of the Operation row. *)
Theorem write_paths_keep_index_consistent q :
  index_consistent (q_db q) →
  (∀ operation key, index_consistent (q_db (UpsertOperation operation key q).2))
  ∧ (cells_on_delete_cascade = true →
     ∀ id o, index_consistent (q_db (DeleteOperation id o q).2)).
Proof.
  intros Hcons. split.
  - intros operation key.
    destruct (UpsertOperation_states operation key q)
      as [-> | (st & et & [(k & ->) | ->])].
    + exact Hcons.
    + exact (cellsUpserted_db1_consistent _ (withTimeRange operation st et) _ _ Hcons).
    + intros cid id [lvl Hl]. unfold pushed, deleteLeftOverCellsForOperationQuery in *.
      cbn [scd_cells_operations scd_operations] in *.
      apply map_lookup_filter_Some in Hl as [Hl _].
      exact (cellsUpserted_db1_consistent _ (withTimeRange operation st et) _ _ Hcons
               cid id (ex_intro _ lvl Hl)).
  - intros Hcascade id o.
    assert (index_consistent (deleteQuery id o (q_now q) (q_db q))) as Hdel.
    { unfold deleteQuery.
      destruct (scd_operations (q_db q) !! id) as [r|] eqn:Hr; [|exact Hcons].
      destruct (decide (owner r = o)); [|exact Hcons].
      rewrite Hcascade. intros cid id' [lvl Hl]. simpl in *.
      apply map_lookup_filter_Some in Hl as [Hl Hne]. simpl in Hne.
      rewrite lookup_delete_ne by congruence. apply (Hcons cid). eauto. }
    destruct (DeleteOperation_states id o q) as [-> | [-> | (r & Hr & Ho & ->)]].
    + exact Hcons.
    + exact Hdel.
    + destruct (deleteImplicitSubscriptionQuery_frame (subscription_id r) o (q_now q)
                  (deleteQuery id o (q_now q) (q_db q))) as (Hops & Hcells & _).
      intros cid id' Hs. rewrite Hops. rewrite Hcells in Hs. exact (Hdel cid id' Hs).
Qed.

Lemma deleteImplicitSubscriptionQuery_referenced sid o now db id r :
  scd_operations db !! id = Some r →
  scd_subscriptions (deleteImplicitSubscriptionQuery sid o now db) !! subscription_id r
  = scd_subscriptions db !! subscription_id r.
Proof.
  intros Hr. unfold deleteImplicitSubscriptionQuery.
  destruct (scd_subscriptions db !! sid) as [s|]; [|reflexivity].
  destruct (bool_decide (sub_owner s = o) && implicit s
            && forallb (λ n, bool_decide (0 = n)) (countReferencing sid db)) eqn:Hcond;
    [|reflexivity].
  rewrite !andb_true_iff, countReferencing_zero in Hcond.
  destruct Hcond as [_ Hnone]. simpl.
  apply lookup_delete_ne. intros Heq. exact (Hnone id r Hr (eq_sym Heq)).
Qed.

(** X10. A delete never takes away a Subscription that an Operation still
    refers to: if every Operation row refers to a Subscription that has a
    row, this is still so after a delete, whatever its result and wherever
    it failed. *)
Theorem DeleteOperation_keeps_subscriptions_present id o q :
  subscriptions_present (q_db q) →
  subscriptions_present (q_db (DeleteOperation id o q).2).
Proof.
  intros Hpres.
  destruct (deleteQuery_frame id o (q_now q) (q_db q)) as (Hsubs & _ & _ & Hsub).
  assert (subscriptions_present (deleteQuery id o (q_now q) (q_db q))) as Hdel.
  { intros id' r' Hr'. rewrite Hsubs. apply (Hpres id'). apply Hsub. exact Hr'. }
  destruct (DeleteOperation_states id o q) as [-> | [-> | (r & Hr & Ho & ->)]].
  - exact Hpres.
  - exact Hdel.
  - intros id' r' Hr'.
    destruct (deleteImplicitSubscriptionQuery_frame (subscription_id r) o (q_now q)
                (deleteQuery id o (q_now q) (q_db q))) as (Hops & _ & _).
    rewrite Hops in Hr'.
    rewrite (deleteImplicitSubscriptionQuery_referenced _ _ _ _ id' r' Hr').
    exact (Hdel id' r' Hr').
Qed.

(** ** How the calls compose *)

(** X2. What an upsert wrote is what a later [GetOperation] reads: on the
    relations a successful upsert left, the Operation of that ID is the one
    the upsert returned, with the same Version and OVN, except that
    [GetOperation] does not fill in the Cells. *)
Theorem UpsertOperation_then_GetOperation operation key q o subs q' q2 :
  UpsertOperation operation key q = (Ok (o, subs), q') →
  q_db q2 = q_db q' →
  faulty q2 = false →
  GetOperation (ID operation) q2 = (Ok (withCells o []), advance q2).
Proof.
  intros Hrun Hdb Hf.
  apply UpsertOperation_Ok in Hrun as (st & et & _ & _ & Hdb' & -> & _).
  unfold GetOperation. rewrite fetchOperationByID_run, Hf.
  unfold stored. rewrite Hdb, Hdb', pushed_operations. simpl.
  rewrite lookup_insert_eq. reflexivity.
Qed.

(** X3. After a successful delete the Operation is gone for every later
    call: on the relations the delete left, [GetOperation] and a second
    delete by anyone fail with NotFound, and so does an upsert of that ID
    that names a Version (an update). *)
Theorem DeleteOperation_then_NotFound id o q old subs q' q2 :
  DeleteOperation id o q = (Ok (old, subs), q') →
  q_db q2 = q_db q' →
  faulty q2 = false →
  (GetOperation id q2).1 = Err (ErrCode dsserr.NotFound)
  ∧ (∀ o2, (DeleteOperation id o2 q2).1 = Err (ErrCode dsserr.NotFound))
  ∧ (∀ operation key, ID operation = id → Empty (Version operation) = false →
       (UpsertOperation operation key q2).1 = Err (ErrCode dsserr.NotFound)).
Proof.
  intros Hrun Hdb Hf.
  apply DeleteOperation_Ok in Hrun as (r & _ & _ & _ & Hops & _).
  assert (stored id (q_db q2) = None) as Hgone.
  { unfold stored. rewrite Hdb, Hops, lookup_delete_eq. reflexivity. }
  split_and!.
  - unfold GetOperation. rewrite fetchOperationByID_run, Hf, Hgone. reflexivity.
  - intros o2. rewrite DeleteOperation_run, Hf, Hgone. reflexivity.
  - intros operation key <- Hv.
    rewrite UpsertOperation_run, Hf, Hgone.
    rewrite (upsertFetched_rejected _ _ _ dsserr.NotFound);
      [reflexivity|simpl; rewrite Hv; reflexivity].
Qed.

(** X18. The Version counter starts again after a delete: a successful
    upsert of an ID on the relations a successful delete of that ID left
    returns Version 1, whatever Version the deleted row had. *)
Theorem DeleteOperation_then_UpsertOperation_version
    id o q old subs q' operation key q2 o2 subs2 q2' :
  DeleteOperation id o q = (Ok (old, subs), q') →
  q_db q2 = q_db q' →
  ID operation = id →
  UpsertOperation operation key q2 = (Ok (o2, subs2), q2') →
  Version o2 = 1 ∧ version <$> scd_operations (q_db q2') !! id = Some 1.
Proof.
  intros Hdel Hdb <- Hup.
  apply DeleteOperation_Ok in Hdel as (r & _ & _ & _ & Hops & _).
  apply UpsertOperation_Ok in Hup as (st & et & _ & _ & Hdb' & -> & _).
  rewrite Hdb', pushed_operations. simpl. rewrite lookup_insert_eq. simpl.
  rewrite Hdb, Hops, lookup_delete_eq. split; reflexivity.
Qed.

(** ** Cells through the Cell Index *)

Lemma elem_of_selectCells id db cid :
  cid ∈ selectCells id db ↔ is_Some (scd_cells_operations db !! (cid, id)).
Proof.
  unfold selectCells. rewrite list_elem_of_fmap. split.
  - intros ([[cid' id'] lvl] & -> & Hin).
    apply list_elem_of_filter in Hin as [Hid Hin]. simpl in Hid. subst id'.
    apply elem_of_map_to_list in Hin. simpl. eauto.
  - intros [lvl Hl]. exists (cid, id, lvl). split; [reflexivity|].
    apply list_elem_of_filter. split; [reflexivity|].
    apply elem_of_map_to_list. exact Hl.
Qed.

Lemma selectCells_NoDup id db : NoDup (selectCells id db).
Proof.
  unfold selectCells. apply NoDup_fmap_2_strong.
  - intros [[c1 i1] l1] [[c2 i2] l2] H1 H2 Heq. simpl in Heq. subst c2.
    apply list_elem_of_filter in H1 as [Hi1 H1], H2 as [Hi2 H2].
    simpl in Hi1, Hi2. subst i1 i2.
    apply elem_of_map_to_list in H1, H2. congruence.
  - apply NoDup_filter, NoDup_map_to_list.
Qed.

(** X6. The Cells survive the way through the Cell Index: the Operation a
    successful delete returns after a successful upsert of the same ID
    carries exactly the 64-bit cell identifiers the upsert was given, each
    of them once, whatever their order and repetitions in the input. *)
Theorem cells_written_then_read_back
    operation key q o subs q' q2 ow old subs2 q2' :
  Forall is_uint64 (Cells operation) →
  UpsertOperation operation key q = (Ok (o, subs), q') →
  q_db q2 = q_db q' →
  DeleteOperation (ID operation) ow q2 = (Ok (old, subs2), q2') →
  (∀ c, c ∈ Cells old ↔ c ∈ Cells operation) ∧ NoDup (Cells old).
Proof.
  intros Hwf Hup Hdb Hdel. rewrite Forall_forall in Hwf.
  apply UpsertOperation_Ok in Hup as (st & et & _ & _ & Hdb' & _ & _).
  apply DeleteOperation_inv in Hdel as [_ (r & _ & _ & -> & _ & _)]. simpl.
  assert (∀ cid, cid ∈ selectCells (ID operation) (q_db q2)
                 ↔ ∃ c, c ∈ Cells operation ∧ cid = int64 c) as Hsel.
  { intros cid. rewrite elem_of_selectCells, Hdb, Hdb'. split.
    - intros [lvl Hl].
      destruct (pushed_cells_own (withTimeRange operation st et) _ _ _ _ Hl)
        as (c & Hc & -> & _). eauto.
    - intros (c & Hc & ->).
      destruct (pushed_cells_written (withTimeRange operation st et)
                  (q_now q) (q_db q) c Hc) as (c' & _ & _ & Hl). eauto. }
  split.
  - intros c. rewrite list_elem_of_fmap. split.
    + intros (cid & -> & Hin). apply Hsel in Hin as (c' & Hc' & ->).
      rewrite uint64_int64 by (apply Hwf; exact Hc'). exact Hc'.
    + intros Hc. exists (int64 c). split.
      * symmetry. apply uint64_int64. apply Hwf. exact Hc.
      * apply Hsel. eauto.
  - apply NoDup_fmap_2_strong; [|apply selectCells_NoDup].
    intros cid1 cid2 H1 H2 Heq.
    apply Hsel in H1 as (c1 & Hc1 & ->), H2 as (c2 & Hc2 & ->).
    rewrite !uint64_int64 in Heq by (apply Hwf; assumption). congruence.
Qed.

(** ** Search after a write, and wider searches *)

Lemma searchOperations_Ok v4d q result q' :
  searchOperations v4d q = (Ok result, q') →
  ∃ sv fp cells,
    SpatialVolume v4d = Some sv ∧ Footprint sv = Some fp
    ∧ CalculateCovering fp = Ok cells ∧ cells ≠ [] ∧ faulty q = false
    ∧ q' = advance q
    ∧ result = scan <$> (operationsIntersectingVolumeQuery (int64 <$> cells)
                           (AltitudeLo sv) (AltitudeHi sv)
                           (v4d_StartTime v4d) (v4d_EndTime v4d)
                           (q_now q) (q_db q)).1.
Proof.
  destruct (SpatialVolume v4d) as [sv|] eqn:Hsv;
    [|unfold searchOperations; rewrite Hsv; discriminate].
  destruct (Footprint sv) as [fp|] eqn:Hfp;
    [|unfold searchOperations; rewrite Hsv, Hfp; discriminate].
  destruct (CalculateCovering fp) as [[|c cells]|e] eqn:Hc;
    try (unfold searchOperations; rewrite Hsv, Hfp, Hc; discriminate).
  rewrite (searchOperations_run _ _ _ _ _ _ Hsv Hfp Hc).
  destruct (faulty q); [discriminate|]. intros [= <- <-].
  exists sv, fp, (c :: cells). split_and!; assumption || reflexivity || discriminate.
Qed.

(** X13. What an upsert wrote is what a later search finds: on the
    relations a successful upsert left, a search whose covering holds one of
    the cells of the Operation and whose bounds overlap the bounds of the
    returned Operation (or are unbounded) returns that Operation, without
    its Cells. *)
Theorem UpsertOperation_then_search operation key q o subs q' q2 v4d sv fp cells c :
  UpsertOperation operation key q = (Ok (o, subs), q') →
  q_db q2 = q_db q' →
  faulty q2 = false →
  SpatialVolume v4d = Some sv → Footprint sv = Some fp →
  CalculateCovering fp = Ok cells →
  c ∈ Cells operation → c ∈ cells →
  le_or_unbounded altitude_le (AltitudeLo sv) (AltitudeUpper o) →
  le_or_unbounded altitude_le (AltitudeLower o) (AltitudeHi sv) →
  le_or_unbounded time_le (v4d_StartTime v4d) (EndTime o) →
  le_or_unbounded time_le (StartTime o) (v4d_EndTime v4d) →
  ∃ result, searchOperations v4d q2 = (Ok result, advance q2)
            ∧ withCells o [] ∈ result.
Proof.
  intros Hup Hdb Hf Hsv Hfp Hcov Hc Hcin H1 H2 H3 H4.
  apply UpsertOperation_Ok in Hup as (st & et & _ & _ & Hdb' & -> & _).
  destruct cells as [|c0 cells]; [inversion Hcin|].
  rewrite (searchOperations_run _ _ _ _ _ _ Hsv Hfp Hcov), Hf.
  eexists. split; [reflexivity|].
  apply list_elem_of_fmap.
  exists (ID operation, upsertedRow (withTimeRange operation st et) (q_now q) (q_db q)).
  split; [reflexivity|]. apply elem_of_query. unfold matches_query.
  rewrite Hdb, Hdb', pushed_operations. split_and!.
  - simpl. apply lookup_insert_eq.
  - exists c. split; [exact Hcin|].
    destruct (pushed_cells_written (withTimeRange operation st et)
                (q_now q) (q_db q) c Hc) as (c' & _ & _ & Hl). eauto.
  - exact H1.
  - exact H2.
  - exact H3.
  - exact H4.
Qed.

(** X14. A deleted Operation is never found again: on the relations a
    successful delete left, no search returns an Operation with the deleted
    ID, also when Cell Index rows of that ID are still there. *)
Theorem DeleteOperation_then_search id o q old subs q' q2 v4d result q3 :
  DeleteOperation id o q = (Ok (old, subs), q') →
  q_db q2 = q_db q' →
  searchOperations v4d q2 = (Ok result, q3) →
  ∀ x, x ∈ result → ID x ≠ id.
Proof.
  intros Hdel Hdb Hs x Hx.
  apply DeleteOperation_Ok in Hdel as (r & _ & _ & _ & Hops & _).
  apply searchOperations_Ok in Hs as (sv & fp & cells & _ & _ & _ & _ & _ & _ & ->).
  apply list_elem_of_fmap in Hx as ([id' r'] & -> & Hin).
  apply elem_of_query in Hin as (Hr' & _). simpl.
  rewrite Hdb, Hops in Hr'. apply lookup_delete_Some in Hr' as [Hne _]. congruence.
Qed.

Lemma le_or_unbounded_widened_l {T} (le : T → T → bool) a a' b :
  widened a a' → le_or_unbounded le a b → le_or_unbounded le a' b.
Proof. intros [-> | ->] H; [exact H|]. intros x y Hx. discriminate. Qed.

Lemma le_or_unbounded_widened_r {T} (le : T → T → bool) a b b' :
  widened b b' → le_or_unbounded le a b → le_or_unbounded le a b'.
Proof. intros [-> | ->] H; [exact H|]. intros x y _ Hy. discriminate. Qed.

(** X12. A wider search finds at least as much: when a search returns a
    result, the search on the same handle with a covering that holds every
    cell of the first and with each bound kept or dropped returns a result
    too, and every Operation of the first result is in it. *)
Theorem searchOperations_monotone v4d v4d' sv sv' fp fp' cells cells' q result q1 :
  SpatialVolume v4d = Some sv → Footprint sv = Some fp →
  CalculateCovering fp = Ok cells →
  SpatialVolume v4d' = Some sv' → Footprint sv' = Some fp' →
  CalculateCovering fp' = Ok cells' →
  cells ⊆ cells' →
  widened (AltitudeLo sv) (AltitudeLo sv') →
  widened (AltitudeHi sv) (AltitudeHi sv') →
  widened (v4d_StartTime v4d) (v4d_StartTime v4d') →
  widened (v4d_EndTime v4d) (v4d_EndTime v4d') →
  searchOperations v4d q = (Ok result, q1) →
  ∃ result', searchOperations v4d' q = (Ok result', q1) ∧ result ⊆ result'.
Proof.
  intros Hsv Hfp Hc Hsv' Hfp' Hc' Hsub Hlo Hhi Hst Het Hs.
  apply searchOperations_Ok in Hs
    as (sv0 & fp0 & cells0 & Hsv0 & Hfp0 & Hc0 & Hne & Hf & -> & ->).
  rewrite Hsv in Hsv0. injection Hsv0 as <-.
  rewrite Hfp in Hfp0. injection Hfp0 as <-.
  rewrite Hc in Hc0. injection Hc0 as <-.
  destruct cells' as [|c' cells'].
  { destruct cells as [|c cells]; [contradiction|].
    exfalso. specialize (Hsub c ltac:(left)). inversion Hsub. }
  rewrite (searchOperations_run _ _ _ _ _ _ Hsv' Hfp' Hc'), Hf.
  eexists. split; [reflexivity|].
  intros x Hx. apply list_elem_of_fmap in Hx as ([id r] & -> & Hin).
  apply list_elem_of_fmap. exists (id, r). split; [reflexivity|].
  apply elem_of_query. apply elem_of_query in Hin.
  destruct Hin as (Hr & (c & Hcin & Hidx) & H1 & H2 & H3 & H4).
  split_and!.
  - exact Hr.
  - exists c. split; [apply Hsub; exact Hcin|exact Hidx].
  - exact (le_or_unbounded_widened_l _ _ _ _ Hlo H1).
  - exact (le_or_unbounded_widened_r _ _ _ _ Hhi H2).
  - exact (le_or_unbounded_widened_l _ _ _ _ Hst H3).
  - exact (le_or_unbounded_widened_r _ _ _ _ Het H4).
Qed.

(** ** Rejections before the write *)

(** X15. An Operation without cells can be written only in a State that is
    not checked for conflicts: with target State Accepted or Activated the
    upsert that passed the other checks fails with BadRequest from the
    conflict search and writes nothing; in any other State, on a handle
    whose calls succeed, it is written and leaves no Cell Index row for its
    ID. *)
Theorem UpsertOperation_without_cells operation key q st et :
  checkExisting (stored (ID operation) (q_db q)) operation = None →
  ValidateTimeRange (StartTime operation) (EndTime operation) = Ok (st, et) →
  Cells operation = [] →
  (checks_OVNs (State operation) = true → faulty q = false →
   UpsertOperation operation key q = (Err (ErrCode dsserr.BadRequest), advance q))
  ∧ (checks_OVNs (State operation) = false → q_faults q = [] →
     ∃ o subs q', UpsertOperation operation key q = (Ok (o, subs), q')
       ∧ ∀ cid, scd_cells_operations (q_db q') !! (cid, ID operation) = None).
Proof.
  intros Hc Hv Hcells. split.
  - intros Hs Hf. rewrite UpsertOperation_run, Hf.
    rewrite (upsertFetched_run _ _ _ st et) by assumption.
    unfold bind, checkConflicts, searchOperations, volumeOf. simpl.
    rewrite Hcells. destruct (State operation); try discriminate; reflexivity.
  - intros Hs Hf. destruct q as [db now faults]. simpl in Hf. subst faults.
    destruct (UpsertOperation_no_fault operation key db now st et Hc Hv (or_introl Hs))
      as (o & subs & q' & Hrun & Hdb).
    exists o, subs, q'. split; [exact Hrun|]. intros cid. rewrite Hdb.
    destruct (scd_cells_operations (pushed (withTimeRange operation st et) now db)
                !! (cid, ID operation)) as [lvl|] eqn:Hl; [|reflexivity].
    destruct (pushed_cells_own (withTimeRange operation st et) _ _ _ _ Hl)
      as (c & Hcin & _).
    simpl in Hcin. rewrite Hcells in Hcin. inversion Hcin.
Qed.

(** X16. The error of [ValidateTimeRange] comes after the version and
    ownership checks and before everything else: an upsert that passed
    those checks and whose time range is refused returns the error of the
    validation as it is, having neither searched nor written. *)
Theorem UpsertOperation_invalid_time_range operation key q e :
  faulty q = false →
  checkExisting (stored (ID operation) (q_db q)) operation = None →
  ValidateTimeRange (StartTime operation) (EndTime operation) = Err e →
  UpsertOperation operation key q = (Err e, advance q).
Proof.
  intros Hf Hc Hv. rewrite UpsertOperation_run, Hf.
  unfold upsertFetched. rewrite Hc. unfold bind, validated. rewrite Hv. reflexivity.
Qed.


(** ** Atomic writes and the Cell Index after a delete *)

(** *** A failing call is passed on *)

Lemma sent_without_failure_refl q : sent_without_failure q q.
Proof. exists 0%nat. split; [reflexivity|constructor]. Qed.

Lemma sent_without_failure_trans q1 q2 q3 :
  sent_without_failure q1 q2 → sent_without_failure q2 q3 →
  sent_without_failure q1 q3.
Proof.
  intros (n & Hd & Hf) (m & Hd' & Hf'). exists (n + m)%nat. split.
  - rewrite Hd', Hd. apply drop_drop.
  - rewrite <- take_take_drop. apply Forall_app. split; [exact Hf|].
    rewrite <- Hd. exact Hf'.
Qed.

Lemma sent_without_failure_step q q' :
  faulty q = false → q_faults q' = tail (q_faults q) →
  sent_without_failure q q'.
Proof.
  unfold faulty. intros Hf Hq. exists 1%nat. rewrite Hq. split.
  - destruct (q_faults q); reflexivity.
  - destruct (q_faults q) as [|[] fs]; [constructor|discriminate|].
    repeat constructor.
Qed.

Lemma statement_returns {A} (run : Time → DB → A * DB) :
  returns_without_failure (statement run).
Proof.
  intros q a q'. rewrite statement_run.
  destruct (faulty q) eqn:Hf; [discriminate|]. intros [= _ <-].
  apply sent_without_failure_step; [exact Hf|reflexivity].
Qed.

Lemma ret_returns {A} (a : A) : returns_without_failure (ret a).
Proof. intros q a' q' [= _ <-]. apply sent_without_failure_refl. Qed.

Lemma fail_returns {A} e : returns_without_failure (@fail A e).
Proof. intros q a q' [=]. Qed.

Lemma bind_returns {A B} (m : M A) (k : A → M B) :
  returns_without_failure m → (∀ a, returns_without_failure (k a)) →
  returns_without_failure (bind m k).
Proof.
  intros Hm Hk q b q' Hrun. apply bind_Ok in Hrun as (a & q1 & H1 & H2).
  eapply sent_without_failure_trans; [exact (Hm _ _ _ H1)|exact (Hk _ _ _ _ H2)].
Qed.

Lemma fetchOperation_returns query : returns_without_failure (fetchOperation query).
Proof.
  unfold fetchOperation, fetchOperations.
  apply bind_returns; [apply bind_returns; [apply statement_returns|intros; apply ret_returns]|].
  intros [|o [|o' l]]; [apply fail_returns|apply ret_returns|apply fail_returns].
Qed.

Lemma upsertCells_returns rows id : returns_without_failure (upsertCells rows id).
Proof.
  induction rows as [|[cid clevel] rows IH]; [apply ret_returns|].
  cbn [upsertCells]. apply bind_returns; [apply statement_returns|intros _; exact IH].
Qed.

Lemma pushOperation_returns operation : returns_without_failure (pushOperation operation).
Proof.
  unfold pushOperation.
  apply bind_returns; [apply fetchOperation_returns|intros stored0].
  apply bind_returns; [apply upsertCells_returns|intros _].
  apply bind_returns; [apply statement_returns|intros _].
  apply bind_returns; [apply statement_returns|intros; apply ret_returns].
Qed.

Lemma searchOperations_returns v4d : returns_without_failure (searchOperations v4d).
Proof.
  unfold searchOperations.
  destruct (SpatialVolume v4d) as [sv|]; [|apply fail_returns].
  destruct (Footprint sv) as [fp|]; [|apply fail_returns].
  destruct (CalculateCovering fp) as [[|c cells]|e]; try apply fail_returns.
  unfold fetchOperations.
  apply bind_returns; [apply statement_returns|intros; apply ret_returns].
Qed.

Lemma checkConflicts_returns operation key :
  returns_without_failure (checkConflicts operation key).
Proof.
  unfold checkConflicts.
  destruct (State operation); try apply ret_returns.
  all: apply bind_returns; [apply searchOperations_returns|intros ops];
    destruct (checkOVNs _ ops); [apply fail_returns|apply ret_returns].
Qed.

Lemma upsertFetched_returns old operation key :
  returns_without_failure (upsertFetched old operation key).
Proof.
  unfold upsertFetched.
  destruct (checkExisting old operation); [apply fail_returns|].
  apply bind_returns.
  - unfold validated.
    destruct (ValidateTimeRange _ _) as [[st et]|e]; [apply ret_returns|apply fail_returns].
  - intros op. apply bind_returns; [apply checkConflicts_returns|intros _].
    apply pushOperation_returns.
Qed.

Lemma UpsertOperation_returns operation key :
  returns_without_failure (UpsertOperation operation key).
Proof.
  intros q a q'. rewrite UpsertOperation_run.
  destruct (faulty q) eqn:Hf; [discriminate|]. intros Hrun.
  apply upsertFetched_returns in Hrun.
  apply (sent_without_failure_trans q (advance q) q'); [|exact Hrun].
  apply sent_without_failure_step; [exact Hf|reflexivity].
Qed.

Lemma DeleteOperation_returns id o :
  returns_without_failure (DeleteOperation id o).
Proof.
  intros q a q'. rewrite DeleteOperation_run.
  destruct (faulty q) eqn:Hf; [discriminate|].
  destruct (stored id (q_db q)) as [old|]; [|discriminate].
  destruct (decide (Owner old ≠ o)); [discriminate|]. intros Hrun.
  apply (sent_without_failure_trans q (advance q) q');
    [apply sent_without_failure_step; [exact Hf|reflexivity]|].
  revert Hrun. generalize (advance q) as q1. revert a q'.
  intros a q' q1. revert q1 a q'.
  refine (_ : returns_without_failure _).
  apply bind_returns.
  - unfold populateOperationCells.
    apply bind_returns; [apply statement_returns|intros; apply ret_returns].
  - intros old0. apply bind_returns; [apply statement_returns|intros subs].
    apply bind_returns; [apply statement_returns|intros _].
    apply bind_returns; [apply statement_returns|intros _].
    apply ret_returns.
Qed.

(** C2. Run in its transaction, a write path is all or nothing. An upsert
    or a delete returns a result only when every statement it sent
    succeeded; when any statement of the sequence fails (the Operation row
    write or delete, a Cell Index statement, the implicit-Subscription
    delete or one of the reads) it returns that error, and the transaction
    commits nothing: the committed relations are what they were before the
    call, whatever the statements before the failing one did behind the
    handle. When the transaction commits, the committed relations are those
    after every statement of the sequence: for an upsert the Operation row
    and the replaced Cell Index rows, for a delete the deleted Operation row
    and the conditional delete of the implicit Subscription. No state in
    between is ever committed. *)
Theorem write_paths_atomic now faults db :
  (∀ operation key,
     match Transact (UpsertOperation operation key) now faults db with
     | (Err _, db') => db' = db
     | (Ok _, db') =>
         ∃ st et,
           ValidateTimeRange (StartTime operation) (EndTime operation) = Ok (st, et)
           ∧ db' = pushed (withTimeRange operation st et) now db
     end)
  ∧ (∀ id o,
       match Transact (DeleteOperation id o) now faults db with
       | (Err _, db') => db' = db
       | (Ok _, db') =>
           ∃ r, scd_operations db !! id = Some r ∧ owner r = o
                ∧ db' = deleteImplicitSubscriptionQuery (subscription_id r) o now
                          (deleteQuery id o now db)
       end)
  ∧ (∀ operation key res q',
       UpsertOperation operation key (mkQueryable db now faults) = (res, q') →
       match res with
       | Ok _ => sent_without_failure (mkQueryable db now faults) q'
       | Err e => Transact (UpsertOperation operation key) now faults db = (Err e, db)
       end)
  ∧ (∀ id o res q',
       DeleteOperation id o (mkQueryable db now faults) = (res, q') →
       match res with
       | Ok _ => sent_without_failure (mkQueryable db now faults) q'
       | Err e => Transact (DeleteOperation id o) now faults db = (Err e, db)
       end).
Proof.
  split_and!.
  - intros operation key. unfold Transact.
    destruct (UpsertOperation operation key (mkQueryable db now faults))
      as [[[o subs]|e] q'] eqn:Hrun; [|reflexivity].
    destruct (faulty q'); [reflexivity|].
    apply UpsertOperation_Ok in Hrun as (st & et & _ & Hv & Hdb & _ & _).
    exists st, et. split; [exact Hv|exact Hdb].
  - intros id o. unfold Transact.
    destruct (DeleteOperation id o (mkQueryable db now faults))
      as [[[old subs]|e] q'] eqn:Hrun; [|reflexivity].
    destruct (faulty q'); [reflexivity|].
    apply DeleteOperation_Ok in Hrun as (r & Hr & Ho & _ & _ & _ & Hdb & _).
    exists r. split_and!; [exact Hr|exact Ho|exact Hdb].
  - intros operation key [r|e] q' Hrun.
    + exact (UpsertOperation_returns operation key _ _ _ Hrun).
    + unfold Transact. rewrite Hrun. reflexivity.
  - intros id o [r|e] q' Hrun.
    + exact (DeleteOperation_returns id o _ _ _ Hrun).
    + unfold Transact. rewrite Hrun. reflexivity.
Qed.

(** C3. With the Cell Index following the deletion of the Operation row it
    refers to, after a successful delete of an Operation no Cell Index row
    remains for its ID: no key [(cell_id, ID)] has a row, and the query
    [populateOperationCells] sends for the ID returns nothing. The Operation
    row itself is gone, and the Cell Index rows of every other Operation are
    what they were. [DeleteOperation] sends no statement to the Cell Index
    itself. *)
Theorem DeleteOperation_removes_cell_index id o q old subs q' :
  cell_index_follows_delete →
  DeleteOperation id o q = (Ok (old, subs), q') →
  (∀ cid, scd_cells_operations (q_db q') !! (cid, id) = None)
  ∧ selectCells id (q_db q') = []
  ∧ scd_operations (q_db q') !! id = None
  ∧ (∀ cid id', id' ≠ id →
       scd_cells_operations (q_db q') !! (cid, id')
       = scd_cells_operations (q_db q) !! (cid, id')).
Proof.
  unfold cell_index_follows_delete. intros Hcascade Hrun.
  pose proof (DeleteOperation_cell_index _ _ _ _ _ _ Hrun) as (_ & _ & Hother).
  apply DeleteOperation_Ok in Hrun as (r & _ & _ & _ & Hops & Hcells & _ & _).
  rewrite Hcascade in Hcells.
  assert (∀ cid, scd_cells_operations (q_db q') !! (cid, id) = None) as Hnone.
  { intros cid. rewrite Hcells. apply map_lookup_filter_None. right.
    intros lvl _ Hne. apply Hne. reflexivity. }
  split_and!.
  - exact Hnone.
  - apply elem_of_nil_inv. intros cid Hin.
    apply elem_of_selectCells in Hin as [lvl Hl]. rewrite Hnone in Hl. discriminate.
  - rewrite Hops. apply lookup_delete_eq.
  - exact Hother.
Qed.

End Store.

(** * The scenario of the specification, run on the model *)

Module Scenario.

(** A token generator that tells Operations and timestamps apart. *)
Definition ovn (t : Z) (id : string) : string := id +:+ "@" +:+ pretty t.

(** [CellID.Level] of the s2 library, for a non-zero cell identifier:
    30 minus half the number of trailing zero bits. *)
Definition level (c : Z) : Z := 30 - Z.log2 (Z.land c (- c)) / 2.

Definition empty (v : Z) : bool := v <=? 0.
Definition matches (v v' : Z) : bool := v =? v'.

(** Both times are required, and the start must not follow the end. *)
Definition validateTimeRange (st et : option Z) : Result (option Z * option Z) :=
  match st, et with
  | Some s, Some e =>
      if s <=? e then Ok (st, et) else Err (ErrCode dsserr.BadRequest)
  | _, _ => Err (ErrCode dsserr.BadRequest)
  end.

(** Every Subscription is notified. *)
Definition notified (db : DB Z Z) (_ : list Z) : list string :=
  (map_to_list (scd_subscriptions Z Z db)).*1.

Definition upsert :=
  UpsertOperation Z Z.leb Z Z.leb ovn level empty matches string notified
    validateTimeRange.
Definition delete_operation (cascade : bool) :=
  DeleteOperation Z Z ovn cascade string notified.
Definition search := searchOperations Z Z.leb Z Z.leb ovn.

(** A handle on [db] at time [now] on which no call fails. *)
Definition handle (db : DB Z Z) (now : Z) : Queryable Z Z :=
  mkQueryable Z Z db now [].

(** Two implicit Subscriptions, no Operation. *)
Definition db0 : DB Z Z :=
  mkDB Z Z ∅ ∅
    (<["sub1" := mkSubscriptionRow "alice" true]>
       (<["sub2" := mkSubscriptionRow "bob" true]> ∅)).

(** [op1] of alice over the cells 10 and 11, altitude 0 to 100, time 10 to
    20, Accepted; [op2] of bob over cell 10, overlapping it; [op3] of alice
    elsewhere, on the Subscription of [op1]. *)
Definition op1 (v : Z) (cells : list Z) : Operation Z Z :=
  mkOperation Z Z "op1" "alice" v "https://alice.example" (Some 0) (Some 100)
    (Some 10) (Some 20) "sub1" "" cells scdmodels.OperationStateAccepted.
Definition op2 (v : Z) : Operation Z Z :=
  mkOperation Z Z "op2" "bob" v "https://bob.example" (Some 50) (Some 150)
    (Some 15) (Some 25) "sub2" "" [10] scdmodels.OperationStateAccepted.
Definition op3 (v : Z) : Operation Z Z :=
  mkOperation Z Z "op3" "alice" v "https://alice.example" (Some 0) (Some 100)
    (Some 10) (Some 20) "sub1" "" [12] scdmodels.OperationStateEnded.

(** bob's attempt to write alice's [op1]. *)
Definition op1_by_bob (v : Z) : Operation Z Z :=
  mkOperation Z Z "op1" "bob" v "https://bob.example" (Some 0) (Some 100)
    (Some 10) (Some 20) "sub2" "" [10] scdmodels.OperationStateEnded.

(** The relations after alice created [op1] at time 100, after bob then
    created [op2] at time 101 having seen [op1], and after alice then
    created [op3] at time 102. *)
Definition db1 : DB Z Z :=
  Eval vm_compute in q_db Z Z (upsert (op1 0 [10; 11]) [] (handle db0 100)).2.
Definition db2 : DB Z Z :=
  Eval vm_compute in q_db Z Z (upsert (op2 0) ["op1@100"] (handle db1 101)).2.
Definition db3 : DB Z Z :=
  Eval vm_compute in q_db Z Z (upsert (op3 0) [] (handle db2 102)).2.

(** The row of [op1] in [db1], [db2] and [db3]. *)
Definition row1 : OperationRow Z Z :=
  mkOperationRow Z Z "alice" 1 "https://alice.example" (Some 0) (Some 100)
    (Some 10) (Some 20) "sub1" 100.

(** Four upserts in a row: [op1], [op2], and two updates of [op1]. *)
Definition calls : list (Operation Z Z * list string * Z * list bool) :=
  [ (op1 0 [10; 11], [], 100, []);
    (op2 0, ["op1@100"], 101, []);
    (op1 1 [10; 11], ["op1@100"; "op2@101"], 102, []);
    (op1 2 [11; 12], ["op1@102"; "op2@101"], 103, [false; false]) ].

Definition history : list (Operation Z Z) * DB Z Z :=
  Eval vm_compute in
  default ([], db0)
    (upsertAll Z Z.leb Z Z.leb ovn level empty matches string notified
       validateTimeRange calls db0).

(** A query over cell 10, altitude 0 to 100, time 10 to 20. *)
Definition volume (cells : list Z) : Volume4D Z Z :=
  mkVolume4D Z Z (Some 10) (Some 20)
    (Some (mkVolume3D Z (Some 100) (Some 0) (Some (GeometryFunc (Ok cells))))).

(** The creation of [op1] when the fourth call through the handle (the
    first cell statement) fails, and the delete of [op1] when the fifth
    (the delete of the implicit Subscription) fails. *)
Definition failed_upsert :=
  upsert (op1 0 [10; 11]) [] (mkQueryable Z Z db0 100 [false; false; false; true]).
Definition failed_delete :=
  delete_operation true "op1" "alice"
    (mkQueryable Z Z db2 103 [false; false; false; false; true]).

(** ** C5: the version checks on the scenario *)

Lemma version_check_witness :
  rejects Z Z (upsert (op1 3 [10; 11]) []) (handle db0 100) (ErrCode dsserr.NotFound)
  ∧ rejects Z Z (upsert (op1 0 [10; 11]) []) (handle db1 101)
      (ErrCode dsserr.AlreadyExists)
  ∧ rejects Z Z (upsert (op1 7 [10; 11]) []) (handle db1 101)
      (ErrCode dsserr.VersionMismatch).
Proof.
  split_and!.
  - apply (UpsertOperation_version_check Z Z.leb Z Z.leb ovn level empty matches
             string notified validateTimeRange (op1 3 [10; 11]) [] (handle db0 100));
      reflexivity.
  - apply (proj1 (proj2 (UpsertOperation_version_check Z Z.leb Z Z.leb ovn level
             empty matches string notified validateTimeRange
             (op1 0 [10; 11]) [] (handle db1 101))) row1); reflexivity.
  - apply (proj2 (proj2 (UpsertOperation_version_check Z Z.leb Z Z.leb ovn level
             empty matches string notified validateTimeRange
             (op1 7 [10; 11]) [] (handle db1 101))) row1); reflexivity.
Defined.

(** ** C4: a foreign owner with a stale Version *)

(** [op1] belongs to alice; bob's upsert of it with Version 7 is answered
    with VersionMismatch, not PermissionDenied. *)
Lemma owner_mismatch_counterexample :
  owner Z Z <$> scd_operations Z Z db1 !! "op1" = Some "alice"
  ∧ Owner Z Z (op1_by_bob 7) = "bob"
  ∧ (upsert (op1_by_bob 7) [] (handle db1 101)).1
    = Err (ErrCode dsserr.VersionMismatch).
Proof. split_and!; reflexivity. Defined.

Lemma owner_mismatch_witness :
  rejects Z Z (upsert (op1_by_bob 1) []) (handle db1 101)
    (ErrCode dsserr.PermissionDenied)
  ∧ rejects Z Z (upsert (op1_by_bob 7) []) (handle db1 101)
      (ErrCode dsserr.VersionMismatch)
  ∧ rejects Z Z (upsert (op1_by_bob 0) []) (handle db1 101)
      (ErrCode dsserr.AlreadyExists)
  ∧ rejects Z Z (delete_operation true "op1" "bob") (handle db1 101)
      (ErrCode dsserr.PermissionDenied).
Proof.
  pose proof (owner_mismatch_rejected Z Z.leb Z Z.leb ovn level empty matches true
                string notified validateTimeRange (handle db1 101)) as [Hup Hdel].
  split_and!.
  - apply (Hup (op1_by_bob 1) [] row1); [reflexivity|discriminate].
  - apply (Hup (op1_by_bob 7) [] row1); [reflexivity|discriminate].
  - apply (Hup (op1_by_bob 0) [] row1); [reflexivity|discriminate].
  - apply (Hdel "op1" "bob" row1); [reflexivity|discriminate].
Defined.

(** ** C1 and C10: the conflict-visibility rule on the scenario *)

(** bob creates [op2] over [op1] without having seen it, then with its OVN. *)
Lemma conflict_check_witness :
  (upsert (op2 0) [] (handle db1 101)).1 = Err (ErrMissingOVNs "op1")
  ∧ (upsert (op2 0) (["op1@100"] ++ ["op7@1"]) (handle db1 101)).1
    = (upsert (op2 0) ["op1@100"] (handle db1 101)).1
  ∧ ∃ o, (upsert (op2 0) ["op1@100"] (handle db1 101)).1 = Ok o.
Proof.
  destruct (UpsertOperation_conflict_check Z Z.leb Z Z.leb ovn level empty matches
              string notified validateTimeRange (op2 0) [] (handle db1 101)
              (Some 15) (Some 25) eq_refl eq_refl eq_refl) as [Hchecked _].
  destruct (Hchecked eq_refl ltac:(discriminate) eq_refl) as (_ & Hfirst & _).
  destruct (UpsertOperation_conflict_check Z Z.leb Z Z.leb ovn level empty matches
              string notified validateTimeRange (op2 0) ["op1@100"] (handle db1 101)
              (Some 15) (Some 25) eq_refl eq_refl eq_refl) as [Hseen _].
  destruct (Hseen eq_refl ltac:(discriminate) eq_refl) as (_ & _ & Hextra).
  split_and!.
  - unfold upsert. rewrite Hfirst; [reflexivity|].
    apply (bool_decide_unpack _). vm_compute. exact I.
  - unfold upsert. rewrite (Hextra ["op7@1"]); [reflexivity|].
    intros o Ho. apply (bool_decide_unpack _).
    vm_compute in Ho. apply list_elem_of_In in Ho as [<-|[]].
    vm_compute. exact I.
  - eexists. reflexivity.
Defined.

(** alice updates [op1] in place, naming the OVN of [op2] but not the OVN
    of [op1] itself. *)
Lemma own_OVN_witness :
  scan Z Z ovn ("op1", row1)
    ∈ found_conflicts Z Z.leb Z Z.leb ovn (op1 1 [10; 11]) (handle db2 102)
  ∧ ∃ id, (upsert (op1 1 [10; 11]) ["op2@101"] (handle db2 102)).1
          = Err (ErrMissingOVNs id).
Proof.
  destruct (UpsertOperation_own_OVN Z Z.leb Z Z.leb ovn level empty matches string
              notified validateTimeRange (op1 1 [10; 11]) ["op2@101"] (handle db2 102)
              row1 (Some 10) (Some 20)) as [Hfound Hfails];
    try reflexivity.
  - exists 10. split; [left|]. vm_compute. eauto.
  - intros x y [= <-] [= <-]. reflexivity.
  - intros x y [= <-] [= <-]. reflexivity.
  - intros x y [= <-] [= <-]. reflexivity.
  - intros x y [= <-] [= <-]. reflexivity.
  - split; [exact Hfound|].
    destruct Hfails as (id & Hrun & _).
    + apply (bool_decide_unpack _). vm_compute. exact I.
    + exists id. unfold upsert. rewrite Hrun. reflexivity.
Defined.

(** ** C6: Versions over the four upserts *)

Lemma version_witness :
  upsertAll Z Z.leb Z Z.leb ovn level empty matches string notified
    validateTimeRange calls db0 = Some history
  ∧ Version Z Z <$> filter (λ o, ID Z Z o = "op1") history.1 = [1; 2; 3]
  ∧ Version Z Z <$> filter (λ o, ID Z Z o = "op2") history.1 = [1].
Proof.
  assert (upsertAll Z Z.leb Z Z.leb ovn level empty matches string notified
            validateTimeRange calls db0 = Some (history.1, history.2)) as Hrun
    by (vm_compute; reflexivity).
  pose proof (proj2 (UpsertOperation_version Z Z.leb Z Z.leb ovn level empty matches
                       string notified validateTimeRange)
                calls db0 history.1 history.2) as Hseq.
  split_and!.
  - vm_compute. reflexivity.
  - rewrite (Hseq "op1" Hrun). vm_compute. reflexivity.
  - rewrite (Hseq "op2" Hrun). vm_compute. reflexivity.
Defined.

(** ** C7: the Cell Index after alice moved [op1] from cells 10, 11 to
    cells 11, 12 *)

Lemma cell_index_witness :
  ∃ o subs q',
    upsert (op1 1 [11; 12]) ["op1@100"; "op2@101"] (handle db2 102) = (Ok (o, subs), q')
    ∧ scd_cells_operations Z Z db2 !! (10, "op1") = Some 30
    ∧ scd_cells_operations Z Z (q_db Z Z q') !! (10, "op1") = None
    ∧ scd_cells_operations Z Z (q_db Z Z q') !! (12, "op1") = Some (level 12)
    ∧ scd_cells_operations Z Z (q_db Z Z q') !! (10, "op2") = Some 30.
Proof.
  destruct (upsert (op1 1 [11; 12]) ["op1@100"; "op2@101"] (handle db2 102))
    as [[[o subs]|e] q'] eqn:Hrun; [|vm_compute in Hrun; discriminate].
  exists o, subs, q'. split; [reflexivity|].
  destruct (UpsertOperation_cell_index Z Z.leb Z Z.leb ovn level empty matches string
              notified validateTimeRange (op1 1 [11; 12]) ["op1@100"; "op2@101"] (handle db2 102) o subs q'
              ltac:(apply (bool_decide_unpack _); vm_compute; exact I) Hrun)
    as (Hown & Hother & _).
  split_and!.
  - reflexivity.
  - destruct (scd_cells_operations Z Z (q_db Z Z q') !! (10, "op1")) as [lvl|] eqn:Hl;
      [|reflexivity].
    apply Hown in Hl as (c & Hc & Hcid & _). exfalso.
    apply list_elem_of_In in Hc as [<-|[<-|[]]]; vm_compute in Hcid; discriminate.
  - apply Hown. exists 12. split_and!; [|reflexivity..]. right. left.
  - rewrite (Hother 10 "op2") by discriminate. reflexivity.
Defined.

(** ** C8: searching the scenario *)

Lemma search_witness :
  (search (volume []) (handle db3 104)).1 = Err (ErrCode dsserr.BadRequest)
  ∧ ∃ result,
      search (volume [10; 11]) (handle db3 104)
      = (Ok result, advance Z Z (handle db3 104))
      ∧ NoDup (ID Z Z <$> result)
      ∧ ID Z Z <$> result = ["op1"; "op2"].
Proof.
  destruct (searchOperations_correct Z Z.leb Z Z.leb ovn (volume []) (handle db3 104))
    as (_ & _ & Hempty & _).
  destruct (searchOperations_correct Z Z.leb Z Z.leb ovn (volume [10; 11])
              (handle db3 104)) as (_ & _ & _ & Hfound).
  split.
  - unfold search.
    rewrite (Hempty _ (GeometryFunc (Ok [])) eq_refl eq_refl (or_introl eq_refl)).
    reflexivity.
  - destruct (Hfound _ (GeometryFunc (Ok [10; 11])) [10; 11] eq_refl eq_refl eq_refl
                ltac:(discriminate) eq_refl) as (result & Hrun & Hnd & _).
    exists result. split_and!; [exact Hrun|exact Hnd|].
    unfold search in *. vm_compute in Hrun. injection Hrun as <-.
    vm_compute. reflexivity.
Defined.

(** ** C9: the implicit Subscription of [op1] *)

(** In [db2] only [op1] refers to "sub1"; in [db3] [op3] does too. *)
Lemma implicit_subscription_witness :
  (∃ old subs q',
     delete_operation true "op1" "alice" (handle db2 103) = (Ok (old, subs), q')
     ∧ scd_subscriptions Z Z (q_db Z Z q') !! "sub1" = None
     ∧ scd_subscriptions Z Z (q_db Z Z q') !! "sub2"
       = Some (mkSubscriptionRow "bob" true))
  ∧ (∃ old subs q',
       delete_operation true "op1" "alice" (handle db3 103) = (Ok (old, subs), q')
       ∧ scd_subscriptions Z Z (q_db Z Z q') !! "sub1"
         = Some (mkSubscriptionRow "alice" true)).
Proof.
  split.
  - destruct (delete_operation true "op1" "alice" (handle db2 103))
      as [[[old subs]|e] q'] eqn:Hrun; [|vm_compute in Hrun; discriminate].
    exists old, subs, q'. split; [reflexivity|].
    destruct (DeleteOperation_implicit_subscription Z Z ovn true string notified
                "op1" "alice" (handle db2 103) old subs q' Hrun)
      as ((r & Hr & Hsid) & Hops & Hsub & Hother).
    assert (r = row1) as -> by (vm_compute in Hr; injection Hr as <-; reflexivity).
    simpl in Hsid. rewrite Hsid in Hsub, Hother.
    destruct (Hsub (mkSubscriptionRow "alice" true) eq_refl) as (_ & _ & Hlast & _).
    split.
    + apply Hlast; [reflexivity..|].
      intros id' r' Hne Hr'. apply elem_of_map_to_list in Hr'.
      vm_compute in Hr'. apply list_elem_of_In in Hr' as [[= <- <-]|[[= <- <-]|[]]].
      * contradiction.
      * discriminate.
    + rewrite (Hother "sub2") by discriminate. reflexivity.
  - destruct (delete_operation true "op1" "alice" (handle db3 103))
      as [[[old subs]|e] q'] eqn:Hrun; [|vm_compute in Hrun; discriminate].
    exists old, subs, q'. split; [reflexivity|].
    destruct (DeleteOperation_implicit_subscription Z Z ovn true string notified
                "op1" "alice" (handle db3 103) old subs q' Hrun)
      as ((r & Hr & Hsid) & Hops & Hsub & Hother).
    assert (r = row1) as -> by (vm_compute in Hr; injection Hr as <-; reflexivity).
    simpl in Hsid. rewrite Hsid in Hsub.
    destruct (Hsub (mkSubscriptionRow "alice" true) eq_refl) as (_ & _ & _ & Hshared).
    apply (Hshared "op3"
             (mkOperationRow Z Z "alice" 1 "https://alice.example" (Some 0) (Some 100)
                (Some 10) (Some 20) "sub1" 102));
      [discriminate|reflexivity|reflexivity].
Defined.

(** ** C3: the Cell Index after the delete of [op1] *)

Lemma delete_cell_index_witness :
  ∃ old subs q',
    delete_operation true "op1" "alice" (handle db2 103) = (Ok (old, subs), q')
    ∧ scd_cells_operations Z Z db2 !! (10, "op1") = Some 30
    ∧ scd_cells_operations Z Z db2 !! (11, "op1") = Some 30
    ∧ (∀ cid, scd_cells_operations Z Z (q_db Z Z q') !! (cid, "op1") = None)
    ∧ selectCells Z Z "op1" (q_db Z Z q') = []
    ∧ scd_cells_operations Z Z (q_db Z Z q') !! (10, "op2") = Some 30.
Proof.
  destruct (delete_operation true "op1" "alice" (handle db2 103))
    as [[[old subs]|e] q'] eqn:Hrun; [|vm_compute in Hrun; discriminate].
  exists old, subs, q'. split; [reflexivity|].
  destruct (DeleteOperation_removes_cell_index Z Z ovn true string notified
              "op1" "alice" (handle db2 103) old subs q' eq_refl Hrun)
    as (Hnone & Hsel & _ & Hother).
  split_and!; [reflexivity|reflexivity|exact Hnone|exact Hsel|].
  rewrite (Hother 10 "op2") by discriminate. reflexivity.
Defined.

(** ** C2: a statement fails in the middle of a write *)

(** The creation of [op1] fails at its first cell statement, when the
    Operation row is already written behind the handle; the delete of [op1]
    fails at its last statement, when the Operation row is already deleted
    behind the handle. Neither reaches the committed relations. The creation
    of [op1] on a handle whose calls succeed commits [db1]. *)
Lemma atomic_write_witness :
  (failed_upsert.1 = Err ErrBackend
   ∧ version Z Z <$> scd_operations Z Z (q_db Z Z failed_upsert.2) !! "op1" = Some 1
   ∧ Transact Z Z (upsert (op1 0 [10; 11]) []) 100 [false; false; false; true] db0
     = (Err ErrBackend, db0))
  ∧ (failed_delete.1 = Err ErrBackend
     ∧ scd_operations Z Z (q_db Z Z failed_delete.2) !! "op1" = None
     ∧ Transact Z Z (delete_operation true "op1" "alice") 103
         [false; false; false; false; true] db2
       = (Err ErrBackend, db2))
  ∧ (Transact Z Z (upsert (op1 0 [10; 11]) []) 100 [] db0).2 = db1.
Proof.
  destruct (write_paths_atomic Z Z.leb Z Z.leb ovn level empty matches true string
              notified validateTimeRange 100 [false; false; false; true] db0)
    as (_ & _ & Hup & _).
  destruct (write_paths_atomic Z Z.leb Z Z.leb ovn level empty matches true string
              notified validateTimeRange 103 [false; false; false; false; true] db2)
    as (_ & _ & _ & Hdel).
  destruct (write_paths_atomic Z Z.leb Z Z.leb ovn level empty matches true string
              notified validateTimeRange 100 [] db0) as (Hok & _).
  split_and!.
  - reflexivity.
  - reflexivity.
  - exact (Hup (op1 0 [10; 11]) [] (Err ErrBackend) failed_upsert.2 eq_refl).
  - reflexivity.
  - reflexivity.
  - exact (Hdel "op1" "alice" (Err ErrBackend) failed_delete.2 eq_refl).
  - specialize (Hok (op1 0 [10; 11]) []). unfold upsert.
    destruct (Transact Z Z
                (UpsertOperation Z Z.leb Z Z.leb ovn level empty matches string
                   notified validateTimeRange (op1 0 [10; 11]) []) 100 [] db0)
      as [[r|e] db'] eqn:Hrun; [|vm_compute in Hrun; discriminate].
    destruct Hok as (st & et & Hv & ->). injection Hv as <- <-. reflexivity.
Defined.

(** ** Further runs of the scenario *)

Definition get := GetOperation Z Z ovn.

(** alice moves [op1] to the cells 11 and 12 in [db2]. *)
Definition move_op1 :=
  upsert (op1 1 [11; 12]) ["op1@100"; "op2@101"] (handle db2 102).

(** alice creates [op3] in [db2], and its only cell statement fails. *)
Definition failed_op3 :=
  upsert (op3 0) [] (mkQueryable Z Z db2 102 [false; false; true]).

(** [op1] without cells, as sent (Accepted) and Ended. *)
Definition op1_ended (v : Z) (cells : list Z) : Operation Z Z :=
  mkOperation Z Z "op1" "alice" v "https://alice.example" (Some 0) (Some 100)
    (Some 10) (Some 20) "sub1" "" cells scdmodels.OperationStateEnded.

(** [op1] with its end before its start. *)
Definition op1_backwards : Operation Z Z :=
  mkOperation Z Z "op1" "alice" 0 "https://alice.example" (Some 0) (Some 100)
    (Some 20) (Some 10) "sub1" "" [10; 11] scdmodels.OperationStateAccepted.

(** A query over the cells 10 and 11 with no lower altitude and no start. *)
Definition wide_volume : Volume4D Z Z :=
  mkVolume4D Z Z None (Some 20)
    (Some (mkVolume3D Z (Some 100) None (Some (GeometryFunc (Ok [10; 11]))))).

Lemma db2_index_consistent : index_consistent Z Z db2.
Proof.
  intros cid id [lvl Hl]. apply elem_of_map_to_list in Hl. vm_compute in Hl.
  apply list_elem_of_In in Hl.
  destruct Hl as [[= <- <- <-]|[[= <- <- <-]|[[= <- <- <-]|[]]]];
    vm_compute; eauto.
Qed.

Lemma db2_subscriptions_present : subscriptions_present Z Z db2.
Proof.
  intros id r Hr. apply elem_of_map_to_list in Hr. vm_compute in Hr.
  apply list_elem_of_In in Hr.
  destruct Hr as [[= <- <-]|[[= <- <-]|[]]]; vm_compute; eauto.
Qed.

Lemma get_witness :
  get "op1" (handle db2 103)
  = (Ok (scan Z Z ovn ("op1", row1)), advance Z Z (handle db2 103))
  ∧ (get "op9" (handle db2 103)).1 = Err (ErrCode dsserr.NotFound).
Proof.
  split.
  - unfold get.
    rewrite (proj1 (GetOperation_result Z Z ovn "op1" (handle db2 103) eq_refl)).
    reflexivity.
  - unfold get.
    rewrite (proj1 (GetOperation_result Z Z ovn "op9" (handle db2 103) eq_refl)).
    reflexivity.
Defined.

Lemma delete_missing_witness :
  rejects Z Z (delete_operation true "op9" "alice") (handle db2 103)
    (ErrCode dsserr.NotFound).
Proof.
  exact (DeleteOperation_missing Z Z ovn true string notified "op9" "alice"
           (handle db2 103) eq_refl).
Defined.

Lemma delete_snapshot_witness :
  ∃ old subs q',
    delete_operation true "op1" "alice" (handle db2 103) = (Ok (old, subs), q')
    ∧ Version Z Z old = 1 ∧ OVN Z Z old = "op1@100"
    ∧ USSBaseURL Z Z old = "https://alice.example"
    ∧ (∀ c, c ∈ Cells Z Z old ↔ c = 10 ∨ c = 11)
    ∧ subs = ["sub1"; "sub2"].
Proof.
  destruct (delete_operation true "op1" "alice" (handle db2 103))
    as [[[old subs]|e] q'] eqn:Hrun; [|vm_compute in Hrun; discriminate].
  exists old, subs, q'. split; [reflexivity|].
  destruct (DeleteOperation_returns_snapshot Z Z ovn true string notified
              "op1" "alice" (handle db2 103) old subs q' Hrun)
    as ((r & Hr & _ & _ & _ & _ & Hv & Hurl & _ & _ & _ & _ & _ & Hovn & _)
        & Hcells & Hsubs).
  assert (r = row1) as -> by (vm_compute in Hr; injection Hr as <-; reflexivity).
  split_and!.
  - rewrite Hv. reflexivity.
  - rewrite Hovn. reflexivity.
  - rewrite Hurl. reflexivity.
  - intros c. rewrite Hcells. split.
    + intros (cid & -> & lvl & Hl). apply elem_of_map_to_list in Hl.
      vm_compute in Hl. apply list_elem_of_In in Hl.
      destruct Hl as [[= <- <-]|[[= <- <-]|[[=]|[]]]]; [right|left]; reflexivity.
    + intros [-> | ->]; [exists 10|exists 11]; split; try reflexivity;
        vm_compute; eauto.
  - rewrite Hsubs. reflexivity.
Defined.

Lemma stored_and_returned_witness :
  ∃ o subs q',
    move_op1 = (Ok (o, subs), q')
    ∧ OVN Z Z o = "op1@102" ∧ Cells Z Z o = [11; 12]
    ∧ State Z Z o = scdmodels.OperationStateUnknown
    ∧ updated_at Z Z <$> scd_operations Z Z (q_db Z Z q') !! "op1" = Some 102.
Proof.
  destruct move_op1 as [[[o subs]|e] q'] eqn:Hrun; [|vm_compute in Hrun; discriminate].
  exists o, subs, q'. split; [reflexivity|].
  destruct (UpsertOperation_stored_and_returned Z Z.leb Z Z.leb ovn level empty matches
              string notified validateTimeRange (op1 1 [11; 12])
              ["op1@100"; "op2@101"] (handle db2 102) o subs q' Hrun)
    as (st & et & r & _ & Hr & _ & _ & _ & _ & _ & _ & _ & Hnow & Ho & Hovn & Hstate & _).
  split_and!.
  - rewrite Hovn. reflexivity.
  - rewrite Ho. reflexivity.
  - exact Hstate.
  - simpl in Hr. rewrite Hr. simpl. rewrite Hnow. reflexivity.
Defined.

Lemma keeps_owner_witness :
  ∃ o subs q',
    move_op1 = (Ok (o, subs), q')
    ∧ owner Z Z <$> scd_operations Z Z (q_db Z Z q') !! "op1" = Some "alice".
Proof.
  destruct move_op1 as [[[o subs]|e] q'] eqn:Hrun; [|vm_compute in Hrun; discriminate].
  exists o, subs, q'. split; [reflexivity|].
  exact (proj1 (proj2 (UpsertOperation_keeps_owner Z Z.leb Z Z.leb ovn level empty
           matches string notified validateTimeRange (op1 1 [11; 12])
           ["op1@100"; "op2@101"] (handle db2 102) o subs q' row1 Hrun eq_refl))).
Defined.

Lemma index_consistent_witness :
  failed_op3.1 = Err ErrBackend
  ∧ is_Some (scd_operations Z Z (q_db Z Z failed_op3.2) !! "op3")
  ∧ index_consistent Z Z (q_db Z Z failed_op3.2)
  ∧ index_consistent Z Z (q_db Z Z failed_delete.2).
Proof.
  destruct (write_paths_keep_index_consistent Z Z.leb Z Z.leb ovn level empty matches
              true string notified validateTimeRange
              (mkQueryable Z Z db2 102 [false; false; true]) db2_index_consistent)
    as [Hup _].
  destruct (write_paths_keep_index_consistent Z Z.leb Z Z.leb ovn level empty matches
              true string notified validateTimeRange
              (mkQueryable Z Z db2 103 [false; false; false; false; true])
              db2_index_consistent) as [_ Hdel].
  split_and!.
  - reflexivity.
  - vm_compute. eauto.
  - exact (Hup (op3 0) []).
  - exact (Hdel eq_refl "op1" "alice").
Defined.

Lemma subscriptions_present_witness :
  subscriptions_present Z Z
    (q_db Z Z (delete_operation true "op1" "alice" (handle db2 103)).2)
  ∧ subscriptions_present Z Z (q_db Z Z failed_delete.2).
Proof.
  split.
  - exact (DeleteOperation_keeps_subscriptions_present Z Z ovn true string notified
             "op1" "alice" (handle db2 103) db2_subscriptions_present).
  - exact (DeleteOperation_keeps_subscriptions_present Z Z ovn true string notified
             "op1" "alice" (mkQueryable Z Z db2 103 [false; false; false; false; true])
             db2_subscriptions_present).
Defined.

Lemma upsert_then_get_witness :
  ∃ o subs q',
    move_op1 = (Ok (o, subs), q')
    ∧ get "op1" (handle (q_db Z Z q') 103)
      = (Ok (withCells Z Z o []), advance Z Z (handle (q_db Z Z q') 103)).
Proof.
  destruct move_op1 as [[[o subs]|e] q'] eqn:Hrun; [|vm_compute in Hrun; discriminate].
  exists o, subs, q'. split; [reflexivity|].
  exact (UpsertOperation_then_GetOperation Z Z.leb Z Z.leb ovn level empty matches
           string notified validateTimeRange (op1 1 [11; 12])
           ["op1@100"; "op2@101"] (handle db2 102) o subs q'
           (handle (q_db Z Z q') 103) Hrun eq_refl eq_refl).
Defined.

Lemma delete_then_NotFound_witness :
  ∃ old subs q',
    delete_operation true "op1" "alice" (handle db2 103) = (Ok (old, subs), q')
    ∧ (get "op1" (handle (q_db Z Z q') 104)).1 = Err (ErrCode dsserr.NotFound)
    ∧ (delete_operation true "op1" "bob" (handle (q_db Z Z q') 104)).1
      = Err (ErrCode dsserr.NotFound)
    ∧ (upsert (op1 1 [10; 11]) ["op2@101"] (handle (q_db Z Z q') 104)).1
      = Err (ErrCode dsserr.NotFound).
Proof.
  destruct (delete_operation true "op1" "alice" (handle db2 103))
    as [[[old subs]|e] q'] eqn:Hrun; [|vm_compute in Hrun; discriminate].
  exists old, subs, q'. split; [reflexivity|].
  destruct (DeleteOperation_then_NotFound Z Z.leb Z Z.leb ovn level empty matches true
              string notified validateTimeRange "op1" "alice" (handle db2 103)
              old subs q' (handle (q_db Z Z q') 104) Hrun eq_refl eq_refl)
    as (Hget & Hdel & Hup).
  split_and!.
  - exact Hget.
  - exact (Hdel "bob").
  - exact (Hup (op1 1 [10; 11]) ["op2@101"] eq_refl eq_refl).
Defined.

(** alice deletes [op1], which had Version 1, and creates it again. *)
Lemma version_restart_witness :
  ∃ old subs q' o2 subs2 q2',
    delete_operation true "op1" "alice" (handle db2 103) = (Ok (old, subs), q')
    ∧ upsert (op1 0 [10; 11]) ["op2@101"] (handle (q_db Z Z q') 104)
      = (Ok (o2, subs2), q2')
    ∧ Version Z Z old = 1 ∧ Version Z Z o2 = 1.
Proof.
  destruct (delete_operation true "op1" "alice" (handle db2 103))
    as [[[old subs]|e] q'] eqn:Hdel; [|vm_compute in Hdel; discriminate].
  destruct (upsert (op1 0 [10; 11]) ["op2@101"] (handle (q_db Z Z q') 104))
    as [[[o2 subs2]|e] q2'] eqn:Hup.
  2:{ exfalso. vm_compute in Hdel. injection Hdel as _ _ <-.
      vm_compute in Hup. discriminate. }
  exists old, subs, q', o2, subs2, q2'. split_and!; [reflexivity|exact Hup| |].
  - vm_compute in Hdel. injection Hdel as <- _ _. reflexivity.
  - exact (proj1 (DeleteOperation_then_UpsertOperation_version Z Z.leb Z Z.leb ovn
             level empty matches true string notified validateTimeRange
             "op1" "alice" (handle db2 103) old subs q' (op1 0 [10; 11]) ["op2@101"]
             (handle (q_db Z Z q') 104) o2 subs2 q2' Hdel eq_refl eq_refl Hup)).
Defined.

(** alice moves [op1] to the cells 12, 11 and 12 again, then deletes it. *)
Lemma cells_read_back_witness :
  ∃ o subs q' old subs2 q2',
    upsert (op1 1 [12; 11; 12]) ["op1@100"; "op2@101"] (handle db2 102)
    = (Ok (o, subs), q')
    ∧ delete_operation true "op1" "alice" (handle (q_db Z Z q') 103)
      = (Ok (old, subs2), q2')
    ∧ (∀ c, c ∈ Cells Z Z old ↔ c ∈ [12; 11; 12])
    ∧ NoDup (Cells Z Z old).
Proof.
  destruct (upsert (op1 1 [12; 11; 12]) ["op1@100"; "op2@101"] (handle db2 102))
    as [[[o subs]|e] q'] eqn:Hup; [|vm_compute in Hup; discriminate].
  destruct (delete_operation true "op1" "alice" (handle (q_db Z Z q') 103))
    as [[[old subs2]|e] q2'] eqn:Hdel.
  2:{ exfalso. vm_compute in Hup. injection Hup as _ _ <-.
      vm_compute in Hdel. discriminate. }
  exists o, subs, q', old, subs2, q2'. split_and!; [reflexivity|exact Hdel| |];
    apply (cells_written_then_read_back Z Z.leb Z Z.leb ovn level empty matches true
             string notified validateTimeRange (op1 1 [12; 11; 12])
             ["op1@100"; "op2@101"] (handle db2 102) o subs q'
             (handle (q_db Z Z q') 103) "alice" old subs2 q2'
             ltac:(apply (bool_decide_unpack _); vm_compute; exact I)
             Hup eq_refl Hdel).
Defined.

Lemma upsert_then_search_witness :
  ∃ o subs q' result,
    move_op1 = (Ok (o, subs), q')
    ∧ search (volume [12; 13]) (handle (q_db Z Z q') 103)
      = (Ok result, advance Z Z (handle (q_db Z Z q') 103))
    ∧ withCells Z Z o [] ∈ result.
Proof.
  destruct move_op1 as [[[o subs]|e] q'] eqn:Hrun; [|vm_compute in Hrun; discriminate].
  assert (AltitudeLower Z Z o = Some 0 ∧ AltitudeUpper Z Z o = Some 100
          ∧ StartTime Z Z o = Some 10 ∧ EndTime Z Z o = Some 20) as (Hlo & Hhi & Hst & Het).
  { pose proof Hrun as Hlit. vm_compute in Hlit. injection Hlit as <- _ _.
    split_and!; reflexivity. }
  destruct (UpsertOperation_then_search Z Z.leb Z Z.leb ovn level empty matches string
              notified validateTimeRange (op1 1 [11; 12]) ["op1@100"; "op2@101"]
              (handle db2 102) o subs q' (handle (q_db Z Z q') 103)
              (volume [12; 13])
              (mkVolume3D Z (Some 100) (Some 0) (Some (GeometryFunc (Ok [12; 13]))))
              (GeometryFunc (Ok [12; 13])) [12; 13] 12
              Hrun eq_refl eq_refl eq_refl eq_refl eq_refl
              ltac:(right; left) ltac:(left))
    as (result & Hs & Hin).
  - rewrite Hhi. intros x y [= <-] [= <-]. reflexivity.
  - rewrite Hlo. intros x y [= <-] [= <-]. reflexivity.
  - rewrite Het. intros x y [= <-] [= <-]. reflexivity.
  - rewrite Hst. intros x y [= <-] [= <-]. reflexivity.
  - exists o, subs, q', result. split_and!; [reflexivity|exact Hs|exact Hin].
Defined.

(** Without the referential action the Cell Index rows of [op1] are still
    there after its delete, and no search over their cells returns it. *)
Lemma delete_then_search_witness :
  ∃ old subs q' result,
    delete_operation false "op1" "alice" (handle db2 103) = (Ok (old, subs), q')
    ∧ scd_cells_operations Z Z (q_db Z Z q') !! (11, "op1") = Some 30
    ∧ search (volume [10; 11]) (handle (q_db Z Z q') 104)
      = (Ok result, advance Z Z (handle (q_db Z Z q') 104))
    ∧ Forall (λ x, ID Z Z x ≠ "op1") result.
Proof.
  destruct (delete_operation false "op1" "alice" (handle db2 103))
    as [[[old subs]|e] q'] eqn:Hdel; [|vm_compute in Hdel; discriminate].
  destruct (search (volume [10; 11]) (handle (q_db Z Z q') 104))
    as [[result|e] q3] eqn:Hs.
  2:{ exfalso. vm_compute in Hdel. injection Hdel as _ _ <-.
      vm_compute in Hs. discriminate. }
  assert (q3 = advance Z Z (handle (q_db Z Z q') 104)) as Hq3.
  { pose proof Hdel as Hlit. vm_compute in Hlit. injection Hlit as _ _ <-.
    vm_compute in Hs. injection Hs as _ <-. reflexivity. }
  exists old, subs, q', result. split_and!.
  - reflexivity.
  - vm_compute in Hdel. injection Hdel as _ _ <-. reflexivity.
  - rewrite <- Hq3. exact Hs.
  - apply Forall_forall. intros x Hx.
    exact (DeleteOperation_then_search Z Z.leb Z Z.leb ovn false string notified
             "op1" "alice" (handle db2 103) old subs q' (handle (q_db Z Z q') 104)
             (volume [10; 11]) result q3 Hdel eq_refl Hs x Hx).
Defined.

Lemma search_monotone_witness :
  ∃ result result',
    search (volume [10]) (handle db3 104) = (Ok result, advance Z Z (handle db3 104))
    ∧ search wide_volume (handle db3 104) = (Ok result', advance Z Z (handle db3 104))
    ∧ result ⊆ result'
    ∧ ID Z Z <$> result = ["op1"; "op2"].
Proof.
  destruct (search (volume [10]) (handle db3 104)) as [[result|e] q1] eqn:Hs;
    [|vm_compute in Hs; discriminate].
  assert (q1 = advance Z Z (handle db3 104)) as ->
    by (vm_compute in Hs; injection Hs as _ <-; reflexivity).
  destruct (searchOperations_monotone Z Z.leb Z Z.leb ovn (volume [10]) wide_volume
              (mkVolume3D Z (Some 100) (Some 0) (Some (GeometryFunc (Ok [10]))))
              (mkVolume3D Z (Some 100) None (Some (GeometryFunc (Ok [10; 11]))))
              (GeometryFunc (Ok [10])) (GeometryFunc (Ok [10; 11])) [10] [10; 11]
              (handle db3 104) result (advance Z Z (handle db3 104))
              eq_refl eq_refl eq_refl eq_refl eq_refl eq_refl)
    as (result' & Hs' & Hsub).
  - intros x Hx. apply list_elem_of_In in Hx as [<-|[]]. left.
  - right. reflexivity.
  - left. reflexivity.
  - right. reflexivity.
  - left. reflexivity.
  - exact Hs.
  - exists result, result'. split_and!; [reflexivity|exact Hs'|exact Hsub|].
    vm_compute in Hs. injection Hs as <-. reflexivity.
Defined.

Lemma without_cells_witness :
  upsert (op1 1 []) ["op1@100"; "op2@101"] (handle db2 102)
  = (Err (ErrCode dsserr.BadRequest), advance Z Z (handle db2 102))
  ∧ ∃ o subs q',
      upsert (op1_ended 1 []) [] (handle db2 102) = (Ok (o, subs), q')
      ∧ scd_cells_operations Z Z db2 !! (10, "op1") = Some 30
      ∧ ∀ cid, scd_cells_operations Z Z (q_db Z Z q') !! (cid, "op1") = None.
Proof.
  split.
  - exact (proj1 (UpsertOperation_without_cells Z Z.leb Z Z.leb ovn level empty matches
             string notified validateTimeRange (op1 1 []) ["op1@100"; "op2@101"]
             (handle db2 102) (Some 10) (Some 20) eq_refl eq_refl eq_refl)
             eq_refl eq_refl).
  - destruct (proj2 (UpsertOperation_without_cells Z Z.leb Z Z.leb ovn level empty
             matches string notified validateTimeRange (op1_ended 1 []) []
             (handle db2 102) (Some 10) (Some 20) eq_refl eq_refl eq_refl)
             eq_refl eq_refl) as (o & subs & q' & Hrun & Hnone).
    exists o, subs, q'. split_and!; [exact Hrun|reflexivity|exact Hnone].
Defined.

Lemma invalid_time_range_witness :
  upsert op1_backwards [] (handle db0 100)
  = (Err (ErrCode dsserr.BadRequest), advance Z Z (handle db0 100)).
Proof.
  exact (UpsertOperation_invalid_time_range Z Z.leb Z Z.leb ovn level empty matches
           string notified validateTimeRange op1_backwards [] (handle db0 100)
           (ErrCode dsserr.BadRequest) eq_refl eq_refl eq_refl).
Defined.

End Scenario.
